(** * SwiftLogistics middleware: the WMS real-time protocol stack

    A shallow embedding of
      - the TCP protocol of the Warehouse Management System
        (class [WMSProtocol]: [createMessage], [parseMessage],
        [calculateChecksum], [broadcast], [sendToClient],
        [handleClientData]),
      - the package model ([Package], [PackageManager]) and the handler
        built on it ([WMSHandler]),
      - the request bookkeeping of the TCP-HTTP adapter
        ([TCPHTTPAdapter]: [handleStatusResponse], [waitForTCPResponse]),
    followed by the properties proved about them. *)

From Stdlib Require Import ZArith NArith Lia Ascii String.
From stdpp Require Import gmap strings list fin_maps.

Set Warnings "-register-all".

Local Open Scope Z_scope.

(** ** JavaScript strings and numbers *)

Module JS.

(** A JavaScript string is a sequence of UTF-16 code units. *)
Abbreviation jsstring := (list N).

(** A string literal of the source, as its code units. *)
Definition js (s : string) : jsstring :=
  N_of_ascii <$> list_ascii_of_string s.

(** The numbers that reach [substring]: an integer, or [None] for NaN. *)
Abbreviation jsnum := (option Z).

Definition add (a b : jsnum) : jsnum :=
  match a, b with
  | Some x, Some y => Some (x + y)
  | _, _ => None
  end.

(** ToIntegerOrInfinity followed by the clamping of
    String.prototype.substring: NaN is 0, the rest is cut to [0, len]. *)
Definition clamp (len : nat) (x : jsnum) : nat :=
  match x with
  | None => O
  | Some z => Z.to_nat (Z.max 0 (Z.min z (Z.of_nat len)))
  end.

(** [s.substring(a, b)]: both ends clamped, swapped when out of order. *)
Definition substring (a b : jsnum) (s : jsstring) : jsstring :=
  let i := clamp (length s) a in
  let j := clamp (length s) b in
  take (Nat.max i j - Nat.min i j) (drop (Nat.min i j) s).

(** [s.substring(a)]: the end defaults to the length. *)
Definition substring_from (a : jsnum) (s : jsstring) : jsstring :=
  substring a (Some (Z.of_nat (length s))) s.

(** [s.padStart(n, c)] for a one-character filler. *)
Definition padStart (n : nat) (c : N) (s : jsstring) : jsstring :=
  replicate (n - length s) c ++ s.

(** Decimal digits of a non-negative integer, most significant first.
    Each round divides by ten, so a fuel of the binary size suffices
    ([digits_fuel_spec] below). *)
Fixpoint digits_fuel (fuel : nat) (n : Z) (acc : jsstring) : jsstring :=
  match fuel with
  | O => acc
  | S f =>
      let acc' := (48 + Z.to_N (n mod 10))%N :: acc in
      if n <? 10 then acc' else digits_fuel f (n / 10) acc'
  end.

Definition digits (n : Z) : jsstring :=
  digits_fuel (S (S (Z.to_nat (Z.log2 n)))) n [].

(** Number.prototype.toString on an integer (safe integers print exactly,
    without exponent). *)
Definition toString (n : Z) : jsstring :=
  if n <? 0 then 45%N :: digits (- n) else digits n.

(** WhiteSpace and LineTerminator code units (StrWhiteSpaceChar). *)
Definition is_whitespace (c : N) : bool :=
  bool_decide (c ∈ [9; 10; 11; 12; 13; 32; 160; 5760; 8232; 8233; 8239;
                    8287; 12288; 65279]%N)
  || ((8192 <=? c) && (c <=? 8202))%N.

Fixpoint skip_ws (s : jsstring) : jsstring :=
  match s with
  | c :: s' => if is_whitespace c then skip_ws s' else s
  | [] => []
  end.

(** [s.trim()]. *)
Definition trim (s : jsstring) : jsstring :=
  reverse (skip_ws (reverse (skip_ws s))).

(** [s.split(sep)] for a one-character separator: always at least one
    piece. *)
Fixpoint split (sep : N) (s : jsstring) : list jsstring :=
  match s with
  | [] => [[]]
  | c :: s' =>
      if (c =? sep)%N then [] :: split sep s'
      else match split sep s' with
           | p :: ps => (c :: p) :: ps
           | [] => [[c]]
           end
  end.

(** The value of a digit in the given radix: 0-9, a-z, A-Z. *)
Definition digit_value (radix : Z) (c : N) : option Z :=
  let v :=
    if ((48 <=? c) && (c <=? 57))%N then Some (Z.of_N c - 48)
    else if ((97 <=? c) && (c <=? 122))%N then Some (Z.of_N c - 87)
    else if ((65 <=? c) && (c <=? 90))%N then Some (Z.of_N c - 55)
    else None in
  match v with
  | Some d => if d <? radix then Some d else None
  | None => None
  end.

(** The longest prefix of digits, accumulated left to right; [None] when
    there is no digit at all. *)
Fixpoint parse_digits (radix : Z) (s : jsstring) (acc : jsnum) : jsnum :=
  match s with
  | [] => acc
  | c :: s' =>
      match digit_value radix c with
      | Some d => parse_digits radix s' (Some (radix * default 0 acc + d))
      | None => acc
      end
  end.

(** [parseInt(s)] without a radix: leading white space skipped, an
    optional sign, base 16 after a 0x or 0X prefix and base 10 otherwise;
    NaN when no digit follows.  (Negative zero is identified with 0.) *)
Definition parseInt (s : jsstring) : jsnum :=
  let s1 := skip_ws s in
  let '(sign, s2) :=
    match s1 with
    | c :: r => if (c =? 45)%N then (-1, r)
                else if (c =? 43)%N then (1, r) else (1, s1)
    | [] => (1, s1)
    end in
  let '(radix, s3) :=
    match s2 with
    | c0 :: cx :: r =>
        if ((c0 =? 48) && ((cx =? 120) || (cx =? 88)))%N then (16, r)
        else (10, s2)
    | _ => (10, s2)
    end in
  Z.mul sign <$> parse_digits radix s3 None.

(** [s.includes(sub)]. *)
Fixpoint includes (s sub : jsstring) : bool :=
  bool_decide (sub `prefix_of` s) ||
  match s with
  | [] => false
  | _ :: s' => includes s' sub
  end.

End JS.

Import JS.

(** ** JSON values and the runtime the code runs on *)

(** The values the protocol carries as payloads.  Numbers are integers:
    the payloads of this code base hold counts and millisecond time
    stamps. *)
Inductive jsval :=
| JNull
| JBool (b : bool)
| JNum (n : Z)
| JStr (s : jsstring)
| JArr (items : list jsval)
| JObj (fields : list (jsstring * jsval)).

(** What the code takes from its JavaScript runtime: [JSON.stringify],
    [JSON.parse] ([None] when it throws a SyntaxError) and the system
    clock, [Date_now n] being the n-th value read from [Date.now()] or
    [new Date()]. *)
Class JSRuntime := {
  JSON_stringify : jsval → jsstring;
  JSON_parse : jsstring → option jsval;
  Date_now : nat → Z
}.

(** A reference implementation of the two JSON functions, used to run the
    code on concrete inputs. *)
Module RefJSON.

Definition hex_digit (d : N) : N :=
  if (d <? 10)%N then (48 + d)%N else (87 + d)%N.

(** QuoteJSONString, one code unit at a time. *)
Definition escape (c : N) : jsstring :=
  if (c =? 34)%N then [92; 34]%N
  else if (c =? 92)%N then [92; 92]%N
  else if (c =? 8)%N then [92; 98]%N
  else if (c =? 12)%N then [92; 102]%N
  else if (c =? 10)%N then [92; 110]%N
  else if (c =? 13)%N then [92; 114]%N
  else if (c =? 9)%N then [92; 116]%N
  else if (c <? 32)%N then
    [92; 117; 48; 48; hex_digit (c / 16); hex_digit (c mod 16)]%N
  else [c].

Definition quote (s : jsstring) : jsstring :=
  34%N :: concat (escape <$> s) ++ [34%N].

Fixpoint join (sep : jsstring) (l : list jsstring) : jsstring :=
  match l with
  | [] => []
  | [x] => x
  | x :: l' => x ++ sep ++ join sep l'
  end.

Fixpoint stringify (v : jsval) : jsstring :=
  match v with
  | JNull => js "null"
  | JBool true => js "true"
  | JBool false => js "false"
  | JNum n => toString n
  | JStr s => quote s
  | JArr items => 91%N :: join [44%N] (map stringify items) ++ [93%N]
  | JObj fields =>
      123%N ::
      join [44%N] (map (λ kv, quote kv.1 ++ 58%N :: stringify kv.2) fields)
      ++ [125%N]
  end.

Definition is_json_ws (c : N) : bool :=
  bool_decide (c ∈ [9; 10; 13; 32]%N).

Fixpoint skip_json_ws (s : jsstring) : jsstring :=
  match s with
  | c :: s' => if is_json_ws c then skip_json_ws s' else s
  | [] => []
  end.

Definition unescape (e : N) : option N :=
  if (e =? 34)%N then Some 34%N
  else if (e =? 92)%N then Some 92%N
  else if (e =? 47)%N then Some 47%N
  else if (e =? 98)%N then Some 8%N
  else if (e =? 102)%N then Some 12%N
  else if (e =? 110)%N then Some 10%N
  else if (e =? 114)%N then Some 13%N
  else if (e =? 116)%N then Some 9%N
  else None.

Definition hex4 (a b c d : N) : option N :=
  ha ← digit_value 16 a; hb ← digit_value 16 b;
  hc ← digit_value 16 c; hd ← digit_value 16 d;
  Some (Z.to_N (((ha * 16 + hb) * 16 + hc) * 16 + hd)).

(** The characters of a string literal after its opening quote. *)
Fixpoint parse_string_body (s acc : jsstring) : option (jsstring * jsstring) :=
  match s with
  | [] => None
  | c :: r =>
      if (c =? 34)%N then Some (reverse acc, r)
      else if (c =? 92)%N then
        match r with
        | [] => None
        | e :: r' =>
            if (e =? 117)%N then
              match r' with
              | h1 :: h2 :: h3 :: h4 :: r'' =>
                  match hex4 h1 h2 h3 h4 with
                  | Some u => parse_string_body r'' (u :: acc)
                  | None => None
                  end
              | _ => None
              end
            else
              match unescape e with
              | Some u => parse_string_body r' (u :: acc)
              | None => None
              end
        end
      else if (c <? 32)%N then None
      else parse_string_body r (c :: acc)
  end.

Fixpoint span_digits (s : jsstring) : jsstring * jsstring :=
  match s with
  | c :: r =>
      if ((48 <=? c) && (c <=? 57))%N
      then let '(ds, rest) := span_digits r in (c :: ds, rest)
      else ([], s)
  | [] => ([], [])
  end.

(** An integer literal; fractions and exponents are outside [jsval]. *)
Definition parse_number (s : jsstring) : option (jsval * jsstring) :=
  let '(neg, s1) :=
    match s with
    | c :: r => if (c =? 45)%N then (true, r) else (false, s)
    | [] => (false, s)
    end in
  let '(ds, rest) := span_digits s1 in
  match ds with
  | [] => None
  | d :: ds' =>
      if ((d =? 48)%N && negb (bool_decide (ds' = []))) then None
      else
        match rest with
        | c :: _ =>
            if bool_decide (c ∈ [46; 101; 69]%N) then None
            else n ← parse_digits 10 ds None;
                 Some (JNum (if neg then - n else n), rest)
        | [] => n ← parse_digits 10 ds None;
                Some (JNum (if neg then - n else n), rest)
        end
  end.

Definition expect (lit : jsstring) (v : jsval) (s : jsstring)
  : option (jsval * jsstring) :=
  if bool_decide (take (length lit) s = lit)
  then Some (v, drop (length lit) s) else None.

Fixpoint parse_value (fuel : nat) (s : jsstring) : option (jsval * jsstring) :=
  match fuel with
  | O => None
  | S f =>
      match skip_json_ws s with
      | [] => None
      | c :: r =>
          if (c =? 34)%N then
            '(str, r') ← parse_string_body r []; Some (JStr str, r')
          else if (c =? 91)%N then
            match skip_json_ws r with
            | c' :: r' =>
                if (c' =? 93)%N then Some (JArr [], r')
                else parse_elements f r []
            | [] => None
            end
          else if (c =? 123)%N then
            match skip_json_ws r with
            | c' :: r' =>
                if (c' =? 125)%N then Some (JObj [], r')
                else parse_members f r []
            | [] => None
            end
          else if (c =? 110)%N then expect (js "null") JNull (c :: r)
          else if (c =? 116)%N then expect (js "true") (JBool true) (c :: r)
          else if (c =? 102)%N then expect (js "false") (JBool false) (c :: r)
          else parse_number (c :: r)
      end
  end
with parse_elements (fuel : nat) (s : jsstring) (acc : list jsval)
  : option (jsval * jsstring) :=
  match fuel with
  | O => None
  | S f =>
      '(v, r) ← parse_value f s;
      match skip_json_ws r with
      | c :: r' =>
          if (c =? 44)%N then parse_elements f r' (v :: acc)
          else if (c =? 93)%N then Some (JArr (reverse (v :: acc)), r')
          else None
      | [] => None
      end
  end
with parse_members (fuel : nat) (s : jsstring) (acc : list (jsstring * jsval))
  : option (jsval * jsstring) :=
  match fuel with
  | O => None
  | S f =>
      match skip_json_ws s with
      | q :: r0 =>
          if (q =? 34)%N then
            '(key, r1) ← parse_string_body r0 [];
            match skip_json_ws r1 with
            | colon :: r2 =>
                if (colon =? 58)%N then
                  '(v, r3) ← parse_value f r2;
                  match skip_json_ws r3 with
                  | c :: r4 =>
                      if (c =? 44)%N then parse_members f r4 ((key, v) :: acc)
                      else if (c =? 125)%N
                      then Some (JObj (reverse ((key, v) :: acc)), r4)
                      else None
                  | [] => None
                  end
                else None
            | [] => None
            end
          else None
      | [] => None
      end
  end.

(** Every recursive call has consumed a character at most two calls
    earlier, so twice the length is fuel enough. *)
Definition parse (s : jsstring) : option jsval :=
  '(v, rest) ← parse_value (2 * length s + 2) s;
  if bool_decide (skip_json_ws rest = []) then Some v else None.

End RefJSON.

(** The reference runtime over a given clock. *)
Definition ref_runtime (clock : nat → Z) : JSRuntime :=
  {| JSON_stringify := RefJSON.stringify;
     JSON_parse := RefJSON.parse;
     Date_now := clock |}.

(** ** The WMS TCP protocol (protocol/tcp-protocol.js) *)

Module Protocol.

(** [MESSAGE_TYPES]. *)
Definition PACKAGE_RECEIVED : jsstring := js "PKG_RCV".
Definition PACKAGE_STORED : jsstring := js "PKG_STR".
Definition PACKAGE_PICKED : jsstring := js "PKG_PCK".
Definition PACKAGE_LOADED : jsstring := js "PKG_LDD".
Definition STATUS_REQUEST : jsstring := js "STS_REQ".
Definition STATUS_RESPONSE : jsstring := js "STS_RSP".
Definition HEARTBEAT : jsstring := js "HBT_CHK".
Definition ERROR : jsstring := js "ERR_MSG".
Definition ACK : jsstring := js "ACK_MSG".

Definition MESSAGE_TYPES : list jsstring :=
  [PACKAGE_RECEIVED; PACKAGE_STORED; PACKAGE_PICKED; PACKAGE_LOADED;
   STATUS_REQUEST; STATUS_RESPONSE; HEARTBEAT; ERROR; ACK].

(** The loop of [calculateChecksum]: [sum += data.charCodeAt(i)]. *)
Definition char_sum (data : jsstring) : N :=
  fold_left N.add data 0%N.

(** [calculateChecksum(data)]. *)
Definition calculateChecksum (data : jsstring) : jsstring :=
  let sum := char_sum data in
  padStart 2 48 (toString (Z.of_N (sum mod 100))).

(** [createMessage(type, payload)]; [now] is the value [Date.now()]
    returns inside the call. *)
Definition createMessage `{JSRuntime}
    (now : Z) (type : jsstring) (payload : jsval) : jsstring :=
  let jsonPayload := JSON_stringify payload in
  let timestamp := toString now in
  let length_ := padStart 4 48 (toString (Z.of_nat (length jsonPayload))) in
  let checksum :=
    calculateChecksum (type ++ length_ ++ timestamp ++ jsonPayload) in
  type ++ length_ ++ timestamp ++ jsonPayload ++ checksum.

(** The object [parseMessage] returns for a message it accepts. *)
Record message := Message {
  type : jsstring;
  timestamp : jsnum;
  payload : jsval;
  raw : jsstring
}.

(** [parseMessage] returns null on three paths, told apart here by what
    each of them does before returning: nothing (input shorter than 26),
    logging the invalid checksum, or catching an exception (only
    [JSON.parse] can throw in the [try] block). *)
Inductive reject := TooShort | InvalidChecksum | ParseException.

Inductive parsed :=
| Parsed (m : message)
| Null (why : reject).

(** [parseMessage(rawMessage)]. *)
Definition parseMessage `{JSRuntime} (rawMessage : jsstring) : parsed :=
  if (length rawMessage <? 26)%nat then Null TooShort
  else
    let type := substring (Some 0) (Some 7) rawMessage in
    let lengthStr := substring (Some 7) (Some 11) rawMessage in
    let length_ := parseInt lengthStr in
    let timestampStr := substring (Some 11) (Some 24) rawMessage in
    let payload := substring (Some 24) (add (Some 24) length_) rawMessage in
    let checksum := substring_from (add (Some 24) length_) rawMessage in
    let expectedChecksum :=
      calculateChecksum (type ++ lengthStr ++ timestampStr ++ payload) in
    if bool_decide (checksum ≠ expectedChecksum) then Null InvalidChecksum
    else
      match JSON_parse payload with
      | Some p =>
          Parsed {| type := type;
                    timestamp := parseInt timestampStr;
                    payload := p;
                    raw := rawMessage |}
      | None => Null ParseException
      end.

(** The protocol object and the sockets it talks to.  A socket is named by
    a number; [written] is what has been handed to its [write], oldest
    first, and [failing] holds the sockets whose [write] throws. *)
Record hub := Hub {
  clients : list nat;
  written : gmap nat (list jsstring);
  failing : gset nat;
  emitted : list (nat * message);
  ticks : nat
}.

(** One more reading of the clock has been taken. *)
Definition tick (h : hub) : hub :=
  Hub (clients h) (written h) (failing h) (emitted h) (S (ticks h)).

(** [this.clients.delete(client)]. *)
Definition delete_client (client : nat) (h : hub) : hub :=
  Hub (filter (λ c, c ≠ client) (clients h))
      (written h) (failing h) (emitted h) (ticks h).

(** [client.write(data)]: [None] when it throws. *)
Definition write (client : nat) (data : jsstring) (h : hub) : option hub :=
  if decide (client ∈ failing h) then None
  else Some (Hub (clients h)
                 (<[client := written h !!! client ++ [data]]> (written h))
                 (failing h) (emitted h) (ticks h)).

(** The [try { client.write(message + '\n') } catch { delete }] that
    [broadcast] and [sendToClient] share. *)
Definition try_write (message : jsstring) (h : hub) (client : nat) : hub :=
  match write client (message ++ [10%N]) h with
  | Some h' => h'
  | None => delete_client client h
  end.

(** [broadcast(type, payload)]: the Set is walked in insertion order. *)
Definition broadcast `{JSRuntime}
    (type : jsstring) (payload : jsval) (h : hub) : hub :=
  let message := createMessage (Date_now (ticks h)) type payload in
  foldl (try_write message) (tick h) (clients h).

(** [sendToClient(client, type, payload)]. *)
Definition sendToClient `{JSRuntime}
    (client : nat) (type : jsstring) (payload : jsval) (h : hub) : hub :=
  let message := createMessage (Date_now (ticks h)) type payload in
  try_write message (tick h) client.

(** [this.emit('message', ...)]: the event is recorded. *)
Definition emit_message (client : nat) (m : message) (h : hub) : hub :=
  Hub (clients h) (written h) (failing h) (emitted h ++ [(client, m)])
      (ticks h).

(** The body of the [forEach] in [handleClientData]. *)
Definition handle_messageStr `{JSRuntime}
    (client : nat) (h : hub) (messageStr : jsstring) : hub :=
  match messageStr with
  | [] => h
  | _ =>
      match parseMessage messageStr with
      | Null _ =>
          let now := Date_now (ticks h) in
          sendToClient client ERROR
            (JObj [(js "error", JStr (js "Invalid message format"));
                   (js "timestamp", JNum now)])
            (tick h)
      | Parsed m =>
          let now := Date_now (ticks h) in
          let h' :=
            sendToClient client ACK
              (JObj [(js "originalType", JStr (type m));
                     (js "timestamp", JNum now)])
              (tick h) in
          emit_message client m h'
      end
  end.

(** [handleClientData(client, data)], [data] being the text of the
    buffer. *)
Definition handleClientData `{JSRuntime}
    (client : nat) (data : jsstring) (h : hub) : hub :=
  let messages := split 10 (trim data) in
  foldl (handle_messageStr client) h messages.

End Protocol.

(** ** The package model and the WMS handler
    (models/package.js, handlers/wms-handler.js) *)

Module WMS.

(** The four values [status] can hold: the constructor sets the first and
    [updateStatus] accepts a name only if [validStatuses] includes it. *)
Inductive Status := Received | Stored | Picked | Loaded.

#[global] Instance Status_eq_dec : EqDecision Status.
Proof. solve_decision. Defined.

Definition status_name (s : Status) : jsstring :=
  match s with
  | Received => js "received"
  | Stored => js "stored"
  | Picked => js "picked"
  | Loaded => js "loaded"
  end.

Definition validStatuses : list Status := [Received; Stored; Picked; Loaded].

(** [validStatuses.includes(newStatus)], with the status found. *)
Definition valid_status (newStatus : jsstring) : option Status :=
  snd <$> list_find (λ s, status_name s = newStatus) validStatuses.

(** The lifecycle order received -> stored -> picked -> loaded. *)
Definition rank (s : Status) : nat :=
  match s with Received => 0 | Stored => 1 | Picked => 2 | Loaded => 3 end.

(** An entry of [events]; times are kept in milliseconds. *)
Record Event := {
  eventType : Status;
  description : jsstring;
  ev_timestamp : Z;
  ev_location : option jsstring
}.

(** A value that is a string, null or undefined: what reaches
    [storePackage] as location and [loadPackage] as vehicleId, and what
    [assignedVehicle] holds. *)
Inductive optstr := Str (s : jsstring) | null | undefined.

(** A [Package] object.  In [orderId] and [deliveryAddress], which are
    stored and never looked at, [None] stands for null or undefined; in
    [location], which starts as null and only ever takes a truthy value,
    it stands for null. *)
Record Package := {
  packageId : jsstring;
  clientId : jsstring;
  orderId : option jsstring;
  items : list jsstring;
  deliveryAddress : option jsstring;
  status : Status;
  location : option jsstring;
  assignedVehicle : optstr;
  events : list Event;
  createdAt : Z;
  updatedAt : Z
}.

(** JavaScript truthiness of a string that may be missing. *)
Definition truthy (s : option jsstring) : bool :=
  match s with
  | Some (_ :: _) => true
  | _ => false
  end.

(** What is left of such a value where only its truthiness counts and
    where null and undefined are treated alike. *)
Definition to_option (v : optstr) : option jsstring :=
  match v with
  | Str s => Some s
  | null | undefined => None
  end.

(** How a template literal prints such a value. *)
Definition interpolate (v : optstr) : jsstring :=
  match v with
  | Str s => s
  | null => js "null"
  | undefined => js "undefined"
  end.

(** [addEvent(eventType, description)], reading the clock once. *)
Definition addEvent `{JSRuntime}
    (t : nat) (eventType : Status) (description : jsstring) (pkg : Package)
  : Package :=
  {| packageId := packageId pkg; clientId := clientId pkg;
     orderId := orderId pkg; items := items pkg;
     deliveryAddress := deliveryAddress pkg; status := status pkg;
     location := location pkg; assignedVehicle := assignedVehicle pkg;
     events := events pkg ++
       [{| eventType := eventType; description := description;
           ev_timestamp := Date_now t; ev_location := location pkg |}];
     createdAt := createdAt pkg; updatedAt := updatedAt pkg |}.

(** [new Package(...)], reading the clock three times from [t] on. *)
Definition new_Package `{JSRuntime}
    (t : nat) (packageId clientId : jsstring) (orderId : option jsstring)
    (items : option (list jsstring)) (deliveryAddress : option jsstring)
  : Package :=
  addEvent (S (S t)) Received (js "Package received from client")
    {| packageId := packageId; clientId := clientId; orderId := orderId;
       items := default [] items; deliveryAddress := deliveryAddress;
       status := Received; location := None; assignedVehicle := null;
       events := []; createdAt := Date_now t; updatedAt := Date_now (S t) |}.

(** What the handler and the model throw. *)
Inductive error :=
| IdsRequired
| NotFound (packageId : jsstring)
| NotReady (packageId : jsstring) (current : Status)
| InvalidStatus (newStatus : jsstring).

(** The message of the [Error] thrown. *)
Definition error_message (e : error) : jsstring :=
  match e with
  | IdsRequired => js "Package ID and Client ID are required"
  | NotFound packageId => js "Package " ++ packageId ++ js " not found"
  | NotReady packageId current =>
      js "Package " ++ packageId
      ++ js " is not ready for pickup. Current status: "
      ++ status_name current ++ js ". Expected: stored"
  | InvalidStatus newStatus =>
      js "Invalid status: " ++ newStatus ++ js ". Valid statuses: "
      ++ js "received, stored, picked, loaded"
  end.

(** [updateStatus(newStatus, location, description)], reading the clock
    twice from [t] on.  Of [location] and [description] only the
    truthiness is looked at before a truthy value is used, so [None]
    stands for null and undefined alike (the defaults turn undefined into
    null). *)
Definition updateStatus `{JSRuntime}
    (t : nat) (newStatus : jsstring) (location description : option jsstring)
    (pkg : Package) : error + Package :=
  match valid_status newStatus with
  | None => inl (InvalidStatus newStatus)
  | Some st =>
      let pkg' :=
        {| packageId := packageId pkg; clientId := clientId pkg;
           orderId := orderId pkg; items := items pkg;
           deliveryAddress := deliveryAddress pkg; status := st;
           location := if truthy location then location else WMS.location pkg;
           assignedVehicle := assignedVehicle pkg; events := events pkg;
           createdAt := createdAt pkg; updatedAt := Date_now t |} in
      inr (addEvent (S t) st
             (if truthy description then default [] description
              else js "Package status updated to " ++ newStatus)
             pkg')
  end.

(** [assignToVehicle(vehicleId)]. *)
Definition assignToVehicle `{JSRuntime}
    (t : nat) (vehicleId : optstr) (pkg : Package)
  : error + Package :=
  let pkg' :=
    {| packageId := packageId pkg; clientId := clientId pkg;
       orderId := orderId pkg; items := items pkg;
       deliveryAddress := deliveryAddress pkg; status := status pkg;
       location := location pkg; assignedVehicle := vehicleId;
       events := events pkg; createdAt := createdAt pkg;
       updatedAt := updatedAt pkg |} in
  updateStatus t (js "loaded") None
    (Some (js "Package loaded onto vehicle " ++ interpolate vehicleId)) pkg'.

(** A [PackageManager]: the Map of packages, the events handed to
    [emitEvent] (oldest first, each with the package as it then was) and
    the clock readings taken.  What the registered handlers do with an
    event (the handler of [WMSHandler] broadcasts it when a TCP server is
    attached) stays outside. *)
Record manager := Manager {
  packages : gmap jsstring Package;
  emitted : list (jsstring * Package);
  ticks : nat
}.

Definition new_PackageManager : manager := Manager ∅ [] 0.

Definition emitEvent (eventType : jsstring) (data : Package) (m : manager)
  : manager :=
  Manager (packages m) (emitted m ++ [(eventType, data)]) (ticks m).

(** [addPackage(pkg)]. *)
Definition addPackage (pkg : Package) (m : manager) : Package * manager :=
  let m' := Manager (<[packageId pkg := pkg]> (packages m))
                    (emitted m) (ticks m) in
  (pkg, emitEvent (js "package_received") pkg m').

(** [getPackage(packageId)]. *)
Definition getPackage (packageId : jsstring) (m : manager) : option Package :=
  packages m !! packageId.

(** The result of a method that may throw; nothing is written before any
    of the [throw]s below, so a throw leaves the manager as it was. *)
Inductive outcome (A : Type) :=
| Returned (a : A) (m : manager)
| Thrown (e : error).
Arguments Returned {A} a m.
Arguments Thrown {A} e.

(** [updatePackageStatus(packageId, newStatus, location, description)]:
    null for an unknown package. *)
Definition updatePackageStatus `{JSRuntime}
    (packageId newStatus : jsstring) (location description : option jsstring)
    (m : manager) : outcome (option Package) :=
  match getPackage packageId m with
  | None => Returned None m
  | Some pkg =>
      match updateStatus (ticks m) newStatus location description pkg with
      | inl e => Thrown e
      | inr pkg' =>
          let m' := Manager (<[packageId := pkg']> (packages m))
                            (emitted m) (S (S (ticks m))) in
          Returned (Some pkg') (emitEvent (js "package_updated") pkg' m')
      end
  end.

(** [assignPackageToVehicle(packageId, vehicleId)]. *)
Definition assignPackageToVehicle `{JSRuntime}
    (packageId : jsstring) (vehicleId : optstr) (m : manager)
  : outcome (option Package) :=
  match getPackage packageId m with
  | None => Returned None m
  | Some pkg =>
      match assignToVehicle (ticks m) vehicleId pkg with
      | inl e => Thrown e
      | inr pkg' =>
          let m' := Manager (<[packageId := pkg']> (packages m))
                            (emitted m) (S (S (ticks m))) in
          Returned (Some pkg') (emitEvent (js "package_loaded") pkg' m')
      end
  end.

(** The [packageData] object handed to [receivePackage]. *)
Record packageData := {
  pd_packageId : option jsstring;
  pd_clientId : option jsstring;
  pd_orderId : option jsstring;
  pd_items : option (list jsstring);
  pd_deliveryAddress : option jsstring
}.

(** The objects the handler returns. *)
Record receipt := {
  rc_status : jsstring; rc_packageId : jsstring; rc_warehouse : jsstring;
  rc_receiptTime : Z; rc_nextStep : jsstring
}.
Record storage := {
  st_status : jsstring; st_packageId : jsstring;
  st_location : optstr; st_warehouse : jsstring; st_storageTime : Z
}.
Record picking := {
  pk_status : jsstring; pk_packageId : jsstring;
  pk_location : option jsstring; pk_pickingTime : Z; pk_nextStep : jsstring
}.
Record loading := {
  ld_status : jsstring; ld_packageId : jsstring;
  ld_vehicleId : optstr; ld_loadingTime : Z;
  ld_readyForDelivery : bool
}.

Section Handler.
Context `{JSRuntime}.
(** [this.warehouseConfig.defaultLocation.name]. *)
Variable warehouse : jsstring.

(** [receivePackage(packageData)]. *)
Definition receivePackage (d : packageData) (m : manager) : outcome receipt :=
  if negb (truthy (pd_packageId d)) || negb (truthy (pd_clientId d))
  then Thrown IdsRequired
  else
    let pkg := new_Package (ticks m)
                 (default [] (pd_packageId d)) (default [] (pd_clientId d))
                 (pd_orderId d) (pd_items d) (pd_deliveryAddress d) in
    let m1 := Manager (packages m) (emitted m) (S (S (S (ticks m)))) in
    let '(_, m2) := addPackage pkg m1 in
    Returned {| rc_status := js "received"; rc_packageId := packageId pkg;
                rc_warehouse := warehouse; rc_receiptTime := createdAt pkg;
                rc_nextStep := js "storage_assignment" |} m2.

(** [storePackage(packageId, location)]. *)
Definition storePackage (packageId : jsstring) (location : optstr)
    (m : manager) : outcome storage :=
  match updatePackageStatus packageId (js "stored") (to_option location)
          (Some (js "Package stored at " ++ interpolate location)) m with
  | Thrown e => Thrown e
  | Returned None _ => Thrown (NotFound packageId)
  | Returned (Some pkg) m' =>
      Returned {| st_status := js "stored"; st_packageId := packageId;
                  st_location := location; st_warehouse := warehouse;
                  st_storageTime := updatedAt pkg |} m'
  end.

(** [pickPackage(packageId)]. *)
Definition pickPackage (packageId : jsstring) (m : manager)
  : outcome picking :=
  match getPackage packageId m with
  | None => Thrown (NotFound packageId)
  | Some pkg =>
      if bool_decide (status pkg ≠ Stored)
      then Thrown (NotReady packageId (status pkg))
      else
        match updatePackageStatus packageId (js "picked") None
                (Some (js "Package picked for order fulfillment")) m with
        | Thrown e => Thrown e
        | Returned None _ => Thrown (NotFound packageId)
        | Returned (Some updatedPkg) m' =>
            Returned {| pk_status := js "picked"; pk_packageId := packageId;
                        pk_location := WMS.location updatedPkg;
                        pk_pickingTime := updatedAt updatedPkg;
                        pk_nextStep := js "vehicle_loading" |} m'
        end
  end.

(** [loadPackage(packageId, vehicleId)]. *)
Definition loadPackage (packageId : jsstring) (vehicleId : optstr)
    (m : manager) : outcome loading :=
  match assignPackageToVehicle packageId vehicleId m with
  | Thrown e => Thrown e
  | Returned None _ => Thrown (NotFound packageId)
  | Returned (Some pkg) m' =>
      Returned {| ld_status := js "loaded"; ld_packageId := packageId;
                  ld_vehicleId := vehicleId; ld_loadingTime := updatedAt pkg;
                  ld_readyForDelivery := true |} m'
  end.

(** The four operations of the handler, as requests. *)
Inductive op :=
| Receive (d : packageData)
| Store (packageId : jsstring) (location : optstr)
| Pick (packageId : jsstring)
| Load (packageId : jsstring) (vehicleId : optstr).

Definition state_of {A} (o : outcome A) (m : manager) : manager :=
  match o with
  | Returned _ m' => m'
  | Thrown _ => m
  end.

(** One request served: a throw leaves the manager unchanged. *)
Definition serve (m : manager) (o : op) : manager :=
  match o with
  | Receive d => state_of (receivePackage d m) m
  | Store packageId location => state_of (storePackage packageId location m) m
  | Pick packageId => state_of (pickPackage packageId m) m
  | Load packageId vehicleId => state_of (loadPackage packageId vehicleId m) m
  end.

Definition serve_all (m : manager) (ops : list op) : manager :=
  foldl serve m ops.

End Handler.

End WMS.

(** ** The TCP-HTTP adapter (tcp-http-adapter/tcp-adapter-server.js) *)

Module Adapter.

Import Protocol.

(** The adapter carries its own copies of [createMessage] and
    [parseMessage], the same line for line. *)
Definition createTCPMessage `{JSRuntime} := createMessage.
Definition parseTCPMessage `{JSRuntime} := parseMessage.

(** The adapter: its TCP socket ([connected] when it exists and is not
    destroyed, [sent] what was written to it), [pendingRequests],
    [tcpResponses] (created empty on first use) and the clock readings
    taken. *)
Record adapter := Adapter {
  connected : bool;
  sent : list jsstring;
  pendingRequests : gmap jsstring Z;
  tcpResponses : gmap jsstring jsval;
  ticks : nat
}.

(** [sendTCPMessage(message, requestId)]: [None] when it throws
    'TCP connection not available'; an empty or missing [requestId] is not
    tracked. *)
Definition sendTCPMessage `{JSRuntime}
    (message : jsstring) (requestId : option jsstring) (a : adapter)
  : option adapter :=
  if connected a then
    match requestId with
    | Some (c :: r) =>
        Some (Adapter (connected a) (sent a ++ [message])
                (<[c :: r := Date_now (ticks a)]> (pendingRequests a))
                (tcpResponses a) (S (ticks a)))
    | _ =>
        Some (Adapter (connected a) (sent a ++ [message])
                (pendingRequests a) (tcpResponses a) (ticks a))
    end
  else None.

(** [payload.requestId]: [None] is the TypeError on null, [Some None] is
    undefined. *)
Definition requestId_of (payload : jsval) : option (option jsval) :=
  match payload with
  | JNull => None
  | JObj fields =>
      Some (snd <$> last (filter (λ kv, kv.1 = js "requestId") fields))
  | _ => Some None
  end.

(** [handleStatusResponse(message)]: the keys of [pendingRequests] are
    strings, so only a string can be found in it. *)
Definition handleStatusResponse (msg : message) (a : adapter)
  : option adapter :=
  match requestId_of (payload msg) with
  | None => None
  | Some (Some (JStr requestId)) =>
      if bool_decide (is_Some (pendingRequests a !! requestId)) then
        Some (Adapter (connected a) (sent a)
                (delete requestId (pendingRequests a))
                (<[requestId := payload msg]> (tcpResponses a))
                (ticks a))
      else Some a
  | Some _ => Some a
  end.

(** [handleTCPResponse(data)]; [None] when the TypeError escapes. *)
Definition handleTCPResponse `{JSRuntime} (data : jsstring) (a : adapter)
  : option adapter :=
  match parseTCPMessage data with
  | Null _ => Some a
  | Parsed msg =>
      if bool_decide (type msg = STATUS_RESPONSE)
      then handleStatusResponse msg a
      else Some a
  end.

(** How the promise of [waitForTCPResponse] was settled. *)
Inductive settled :=
| Resolved (response : jsval)
| TimedOut.

(** A call of [waitForTCPResponse(requestId, timeout)] in progress:
    [result] is [None] while [checkResponse] is still rescheduled. *)
Record waiter := Waiter {
  requestId : jsstring;
  startTime : Z;
  timeout : Z;
  result : option settled
}.

(** The start of [waitForTCPResponse]: [startTime] is read; the first
    [checkResponse] runs as the next [Poll]. *)
Definition waitForTCPResponse `{JSRuntime}
    (requestId : jsstring) (timeout : Z) (a : adapter) : waiter * adapter :=
  (Waiter requestId (Date_now (ticks a)) timeout None,
   Adapter (connected a) (sent a) (pendingRequests a) (tcpResponses a)
           (S (ticks a))).

(** One run of [checkResponse]; a settled promise schedules no more. *)
Definition checkResponse `{JSRuntime} (w : waiter) (a : adapter)
  : waiter * adapter :=
  match result w with
  | Some _ => (w, a)
  | None =>
      match tcpResponses a !! requestId w with
      | Some response =>
          (Waiter (requestId w) (startTime w) (timeout w)
                  (Some (Resolved response)),
           Adapter (connected a) (sent a) (pendingRequests a)
                   (delete (requestId w) (tcpResponses a)) (ticks a))
      | None =>
          let a' := Adapter (connected a) (sent a) (pendingRequests a)
                            (tcpResponses a) (S (ticks a)) in
          if Date_now (ticks a) - startTime w >? timeout w then
            (Waiter (requestId w) (startTime w) (timeout w) (Some TimedOut),
             Adapter (connected a) (sent a)
                     (delete (requestId w) (pendingRequests a))
                     (tcpResponses a) (S (ticks a)))
          else (w, a')
      end
  end.

(** What happens to the adapter while a request waits: data arrives on
    the socket, or the timer of [checkResponse] fires. *)
Inductive event :=
| Data (data : jsstring)
| Poll.



End Adapter.

(** ** The rest of the protocol object and the TCP server
    (protocol/tcp-protocol.js) *)

Module Server.

Import Protocol.

(** [this.clients.add(client)]: a Set holds a client once. *)
Definition add_client (client : nat) (h : hub) : hub :=
  if decide (client ∈ clients h) then h
  else Hub (clients h ++ [client]) (written h) (failing h) (emitted h)
           (ticks h).

(** [addClient(client)]: the client joins the set and is sent the welcome
    message.  The handlers it registers on the socket are
    [handleClientData] for 'data' and [on_close] for 'close' and 'error'. *)
Definition addClient `{JSRuntime} (client : nat) (h : hub) : hub :=
  let h1 := add_client client h in
  let serverTime := Date_now (ticks h1) in
  sendToClient client STATUS_RESPONSE
    (JObj [(js "status", JStr (js "connected"));
           (js "serverTime", JNum serverTime);
           (js "protocolVersion", JStr (js "1.0"))])
    (tick h1).

(** The 'close' and the 'error' handler of a client. *)
Definition on_close (client : nat) (h : hub) : hub := delete_client client h.

(** [getStats().connectedClients]: [this.clients.size]. *)
Definition connectedClients (h : hub) : nat := length (clients h).

(** One firing of the interval of [startHeartbeat]. *)
Definition heartbeat `{JSRuntime} (h : hub) : hub :=
  if (0 <? length (clients h))%nat then
    let timestamp := Date_now (ticks h) in
    broadcast HEARTBEAT
      (JObj [(js "timestamp", JNum timestamp);
             (js "activeClients", JNum (Z.of_nat (length (clients h))))])
      (tick h)
  else h.

(** [messageTypeMap] of [broadcastPackageUpdate].  Its callers pass
    'received', 'loaded' or the status of a package, so the lookup always
    finds a type. *)
Definition messageTypeMap (eventType : WMS.Status) : jsstring :=
  match eventType with
  | WMS.Received => PACKAGE_RECEIVED
  | WMS.Stored => PACKAGE_STORED
  | WMS.Picked => PACKAGE_PICKED
  | WMS.Loaded => PACKAGE_LOADED
  end.

(** A field that holds a string or null. *)
Definition nullable (s : option jsstring) : jsval :=
  match s with
  | Some x => JStr x
  | None => JNull
  end.

(** The property [assignedVehicle] of the payload, as [JSON.stringify]
    sees it: a property whose value is undefined is left out. *)
Definition vehicle_field (v : WMS.optstr) : list (jsstring * jsval) :=
  match v with
  | WMS.Str x => [(js "assignedVehicle", JStr x)]
  | WMS.null => [(js "assignedVehicle", JNull)]
  | WMS.undefined => []
  end.

(** The payload [broadcastPackageUpdate] builds from a package.  It is
    handed to [JSON.stringify] and to nothing else, so it is given as the
    object [JSON.stringify] sees. *)
Definition update_payload (packageData : WMS.Package) (now : Z) : jsval :=
  JObj ([(js "packageId", JStr (WMS.packageId packageData));
         (js "status", JStr (WMS.status_name (WMS.status packageData)));
         (js "location", nullable (WMS.location packageData))]
        ++ vehicle_field (WMS.assignedVehicle packageData)
        ++ [(js "timestamp", JNum now)]).

(** [broadcastPackageUpdate(eventType, packageData)]. *)
Definition broadcastPackageUpdate `{JSRuntime}
    (eventType : WMS.Status) (packageData : WMS.Package) (h : hub) : hub :=
  let messageType := messageTypeMap eventType in
  let now := Date_now (ticks h) in
  broadcast messageType (update_payload packageData now) (tick h).

(** The three listeners [setupEventListeners] registers on the package
    manager, for a handler that has a TCP server: what an event handed to
    [emitEvent] does to the protocol object. *)
Definition on_package_event `{JSRuntime}
    (e : jsstring * WMS.Package) (h : hub) : hub :=
  if decide (e.1 = js "package_received")
  then broadcastPackageUpdate WMS.Received e.2 h
  else if decide (e.1 = js "package_updated")
  then broadcastPackageUpdate (WMS.status e.2) e.2 h
  else if decide (e.1 = js "package_loaded")
  then broadcastPackageUpdate WMS.Loaded e.2 h
  else h.

End Server.

(** ** Reading the packages (models/package.js, handlers/wms-handler.js) *)

Module Queries.

Import WMS.

(** [isReadyForPickup()] and [isLoaded()]. *)
Definition isReadyForPickup (pkg : Package) : bool :=
  bool_decide (status pkg = Stored).
Definition isLoaded (pkg : Package) : bool :=
  bool_decide (status pkg = Loaded).

(** [getStatus()]. *)
Record statusInfo := {
  si_packageId : jsstring;
  si_status : jsstring;
  si_location : option jsstring;
  si_assignedVehicle : optstr;
  si_updatedAt : Z
}.

Definition getStatus (pkg : Package) : statusInfo :=
  {| si_packageId := packageId pkg;
     si_status := status_name (status pkg);
     si_location := location pkg;
     si_assignedVehicle := assignedVehicle pkg;
     si_updatedAt := updatedAt pkg |}.

(** [getHistory()]: every event with the packageId added. *)
Definition getHistory (pkg : Package) : list (Event * jsstring) :=
  (λ event, (event, packageId pkg)) <$> events pkg.

(** What [trackPackage] returns. *)
Record tracking := {
  tr_packageId : jsstring;
  tr_currentStatus : statusInfo;
  tr_history : list (Event * jsstring);
  tr_warehouse : jsstring
}.

(** [trackPackage(packageId)]. *)
Definition trackPackage (warehouse packageId : jsstring) (m : manager)
  : outcome tracking :=
  match getPackage packageId m with
  | None => Thrown (NotFound packageId)
  | Some pkg =>
      Returned {| tr_packageId := packageId;
                  tr_currentStatus := getStatus pkg;
                  tr_history := getHistory pkg;
                  tr_warehouse := warehouse |} m
  end.

(** [getAllPackages()], in the order of the map of the model, which need
    not be the insertion order of the Map; what is built on it below
    counts packages and does not depend on their order. *)
Definition getAllPackages (m : manager) : list Package :=
  snd <$> map_to_list (packages m).

(** [getPackagesByStatus(status)]. *)
Definition getPackagesByStatus (status : jsstring) (m : manager)
  : list Package :=
  filter (λ pkg, status_name (WMS.status pkg) = status) (getAllPackages m).

(** The object [statusCounts]: a count for every status met so far. *)
Definition count_status (statusCounts : Status → option nat) (pkg : Package)
  : Status → option nat :=
  λ st, if decide (st = status pkg)
        then Some (default 0%nat (statusCounts st) + 1)%nat
        else statusCounts st.

(** What [getStatistics] returns. *)
Record statistics := {
  totalPackages : nat;
  statusBreakdown : Status → option nat;
  readyForPickup : nat;
  loaded : nat;
  lastUpdated : Z
}.

(** [getStatistics()], reading the clock once. *)
Definition getStatistics `{JSRuntime} (m : manager) : statistics * manager :=
  let packages := getAllPackages m in
  ({| totalPackages := length packages;
      statusBreakdown := foldl count_status (λ _, None) packages;
      readyForPickup := length (getPackagesByStatus (js "stored") m);
      loaded := length (getPackagesByStatus (js "loaded") m);
      lastUpdated := Date_now (ticks m) |},
   Manager (WMS.packages m) (emitted m) (S (ticks m))).

(** The [orderData] of [handleOrderFulfillment] and what it returns. *)
Record orderData := {
  od_orderId : option jsstring;
  od_items : option (list jsstring);
  od_packageId : option jsstring
}.

Record fulfillment := {
  ff_status : jsstring;
  ff_orderId : option jsstring;
  ff_packageId : option jsstring;
  ff_itemsProcessed : nat;
  ff_warehouse : jsstring;
  ff_estimatedShipTime : jsstring;
  ff_timestamp : Z
}.

(** How [handleOrderFulfillment] ends: it returns, or [pickPackage]
    throws, or [items.length] throws a TypeError on missing items, which
    happens after the picking. *)
Inductive fulfilled :=
| Fulfilled (r : fulfillment) (m : manager)
| PickThrew (e : error)
| ItemsMissing (m : manager).

(** [handleOrderFulfillment(orderData)]. *)
Definition handleOrderFulfillment `{JSRuntime}
    (warehouse : jsstring) (d : orderData) (m : manager) : fulfilled :=
  let picked : outcome unit :=
    if truthy (od_packageId d) then
      let packageId := default [] (od_packageId d) in
      match getPackage packageId m with
      | Some pkg =>
          if bool_decide (status pkg = Stored) then
            match pickPackage packageId m with
            | Returned _ m' => Returned () m'
            | Thrown e => Thrown e
            end
          else Returned () m
      | None => Returned () m
      end
    else Returned () m in
  match picked with
  | Thrown e => PickThrew e
  | Returned _ m' =>
      match od_items d with
      | None => ItemsMissing m'
      | Some items =>
          Fulfilled
            {| ff_status := js "fulfilled"; ff_orderId := od_orderId d;
               ff_packageId := od_packageId d;
               ff_itemsProcessed := length items;
               ff_warehouse := warehouse;
               ff_estimatedShipTime := js "2-4 hours";
               ff_timestamp := Date_now (ticks m') |}
            (Manager (packages m') (emitted m') (S (ticks m')))
      end
  end.

End Queries.

(** ** The heartbeat of the adapter (tcp-adapter-server.js) *)

Module AdapterMore.

Import Protocol.

(** [sendHeartbeat()]: the payload reads the clock, then
    [createTCPMessage] does; [None] when [sendTCPMessage] throws. *)
Definition sendHeartbeat `{JSRuntime} (a : Adapter.adapter)
  : option Adapter.adapter :=
  let timestamp := Date_now (Adapter.ticks a) in
  let message :=
    Adapter.createTCPMessage (Date_now (S (Adapter.ticks a))) HEARTBEAT
      (JObj [(js "timestamp", JNum timestamp)]) in
  Adapter.sendTCPMessage message None
    (Adapter.Adapter (Adapter.connected a) (Adapter.sent a)
       (Adapter.pendingRequests a) (Adapter.tcpResponses a)
       (S (S (Adapter.ticks a)))).

End AdapterMore.

(** ** Sample data *)

Module Examples.

Import Protocol.

(** A clock that starts on 9 September 2025 and gains a millisecond with
    every reading. *)
Definition clock (n : nat) : Z := 1757450786892 + Z.of_nat n.

Definition runtime : JSRuntime := ref_runtime clock.

(** The payload of the protocol test: packageId PKG123, status received. *)
Definition sample_payload : jsval :=
  JObj [(js "packageId", JStr (js "PKG123"));
        (js "status", JStr (js "received"))].

(** An object with one field of 9989 letters: its JSON text has 10000
    characters. *)
Definition oversized_payload : jsval :=
  JObj [(js "data", JStr (replicate (Z.to_nat 9989) 97%N))].

(** The payload of the integrity test. *)
Definition integrity_payload : jsval :=
  JObj [(js "test", JStr (js "data")); (js "number", JNum 123);
        (js "array", JArr [JNum 1; JNum 2; JNum 3])].

(** The package of the handler test and of the demonstration. *)
Definition PKG001 : jsstring := js "PKG001".

Definition sample_package : WMS.packageData :=
  {| WMS.pd_packageId := Some PKG001;
     WMS.pd_clientId := Some (js "CLIENT001");
     WMS.pd_orderId := Some (js "ORDER001");
     WMS.pd_items := Some [js "item1"; js "item2"];
     WMS.pd_deliveryAddress := Some (js "123 Test Street, Test City") |}.

Definition warehouse : jsstring := js "Main Warehouse".

(** The manager once the sample package has been received. *)
Definition after_receive : WMS.manager :=
  WMS.serve_all (H := runtime) warehouse WMS.new_PackageManager
    [WMS.Receive sample_package].

(** The requests of the handler test: receive, store, pick, load. *)
Definition lifecycle : list WMS.op :=
  [WMS.Receive sample_package;
   WMS.Store PKG001 (WMS.Str (js "A1"));
   WMS.Pick PKG001;
   WMS.Load PKG001 (WMS.Str (js "VH001"))].

Definition after_lifecycle : WMS.manager :=
  WMS.serve_all (H := runtime) warehouse WMS.new_PackageManager lifecycle.

(** The package [new Package] builds for it at the first three clock
    readings. *)
Definition received_package : WMS.Package :=
  WMS.new_Package (H := runtime) 0 PKG001 (js "CLIENT001")
    (Some (js "ORDER001")) (Some [js "item1"; js "item2"])
    (Some (js "123 Test Street, Test City")).

(** A request of the adapter, recv_1757450786892, that has waited for
    more than its 50 milliseconds: the adapter holds it as pending and no
    response has been stored. *)
Definition recv_id : jsstring := js "recv_1757450786892".

Definition overdue_waiter : Adapter.waiter :=
  Adapter.Waiter recv_id (clock 1) 50 None.

Definition overdue_adapter : Adapter.adapter :=
  Adapter.Adapter true [] {[recv_id := clock 0]} ∅ 100.

(** One connected client, socket 1, with nothing written yet. *)
Definition one_client : hub := Hub [1%nat] ∅ ∅ [] 0.

(** Three connected clients; the socket of client 2 throws on write. *)
Definition three_clients : hub := Hub [1; 2; 3]%nat ∅ {[2%nat]} [] 0.

End Examples.

(** ** Vocabulary of the statements *)

Module Spec.

(** A decimal digit, as a code unit. *)
Definition is_digit (c : N) : Prop := (48 ≤ c ≤ 57)%N.

Definition dec_step (a : Z) (c : N) : Z := 10 * a + (Z.of_N c - 48).

(** The number a string of decimal digits denotes. *)
Definition dec_value (s : jsstring) : Z := fold_left dec_step s 0.

(** The statuses of the events of a package, oldest first. *)
Definition history (pkg : WMS.Package) : list WMS.Status :=
  WMS.eventType <$> WMS.events pkg.

(** No status is followed by a lower one, in the order
    received < stored < picked < loaded. *)
Fixpoint nondecreasing (l : list WMS.Status) : bool :=
  match l with
  | a :: l' =>
      match l' with
      | b :: _ => (WMS.rank a <=? WMS.rank b)%nat && nondecreasing l'
      | [] => true
      end
  | [] => true
  end.

(** The history of a package is in order and ends with its status. *)
Definition coherent (pkg : WMS.Package) : Prop :=
  nondecreasing (history pkg) = true
  ∧ last (history pkg) = Some (WMS.status pkg).

(** Every [Store] of a run finds its package, if any, in status received
    or stored. *)
Fixpoint stores_in_order `{JSRuntime} (warehouse : jsstring)
    (m : WMS.manager) (ops : list WMS.op) : bool :=
  match ops with
  | [] => true
  | o :: ops' =>
      match o with
      | WMS.Store packageId _ =>
          match WMS.getPackage packageId m with
          | Some pkg => (WMS.rank (WMS.status pkg) <=? 1)%nat
          | None => true
          end
      | _ => true
      end && stores_in_order warehouse (WMS.serve warehouse m o) ops'
  end.

End Spec.

(** ** More sample data and vocabulary *)

Module Samples.

Import Protocol.

(** The body of the sample message: everything before its checksum. *)
Definition sample_body : jsstring :=
  js "PKG_RCV" ++ js "0042" ++ js "1757450786892"
  ++ RefJSON.stringify Examples.sample_payload.

(** Two clients, the socket of the second throws on write. *)
Definition two_clients : hub := Hub [1; 2]%nat ∅ {[2%nat]} [] 0.

(** An order for the sample package. *)
Definition sample_order : Queries.orderData :=
  {| Queries.od_orderId := Some (js "ORDER001");
     Queries.od_items := Some [js "item1"; js "item2"];
     Queries.od_packageId := Some Examples.PKG001 |}.

(** The manager once the sample package has been received and stored. *)
Definition after_store : WMS.manager :=
  WMS.serve_all (H := Examples.runtime) Examples.warehouse
    WMS.new_PackageManager
    [WMS.Receive Examples.sample_package;
     WMS.Store Examples.PKG001 (WMS.Str (js "A1"))].

(** The requests of the statistics test: three packages are received,
    the first is stored, the second stored, picked and loaded. *)
Definition package_data (packageId : jsstring) : WMS.packageData :=
  {| WMS.pd_packageId := Some packageId;
     WMS.pd_clientId := Some (js "CLIENT001");
     WMS.pd_orderId := Some (js "ORDER001");
     WMS.pd_items := Some [js "item1"; js "item2"];
     WMS.pd_deliveryAddress := Some (js "123 Test Street, Test City") |}.

Definition statistics_run : list WMS.op :=
  [WMS.Receive (package_data (js "PKG001"));
   WMS.Receive (package_data (js "PKG002"));
   WMS.Receive (package_data (js "PKG003"));
   WMS.Store (js "PKG001") (WMS.Str (js "A1"));
   WMS.Store (js "PKG002") (WMS.Str (js "B1"));
   WMS.Pick (js "PKG002");
   WMS.Load (js "PKG002") (WMS.Str (js "VH001"))].

Definition after_statistics_run : WMS.manager :=
  WMS.serve_all (H := Examples.runtime) Examples.warehouse
    WMS.new_PackageManager statistics_run.

(** A status response for the request of [Examples.overdue_waiter]. *)
Definition sample_response : message :=
  {| type := STATUS_RESPONSE;
     timestamp := Some (Examples.clock 2);
     payload := JObj [(js "requestId", JStr Examples.recv_id);
                      (js "status", JStr (js "received"))];
     raw := [] |}.

End Samples.

Module Notions.

(** A string that begins and ends with a character that is not white
    space: [trim] leaves it as it is. *)
Definition no_outer_space (s : jsstring) : Prop :=
  (∃ c, head s = Some c ∧ is_whitespace c = false)
  ∧ (∃ c, last s = Some c ∧ is_whitespace c = false).

(** Lines put together into one read, a line feed between every two. *)
Fixpoint join_lines (lines : list jsstring) : jsstring :=
  match lines with
  | [] => []
  | line :: rest =>
      match rest with
      | [] => line
      | _ => line ++ 10%N :: join_lines rest
      end
  end.

(** The event a request makes the package manager emit when it succeeds,
    and the package it is about. *)
Definition event_kind (o : WMS.op) : jsstring :=
  match o with
  | WMS.Receive _ => js "package_received"
  | WMS.Store _ _ | WMS.Pick _ => js "package_updated"
  | WMS.Load _ _ => js "package_loaded"
  end.

Definition target (o : WMS.op) : jsstring :=
  match o with
  | WMS.Receive d => default [] (WMS.pd_packageId d)
  | WMS.Store packageId _ | WMS.Pick packageId | WMS.Load packageId _ =>
      packageId
  end.

(** Every package sits under its own id and has a history that begins
    with the receipt and ends with the current status. *)
Definition well_kept (m : WMS.manager) : Prop :=
  ∀ id pkg, WMS.getPackage id m = Some pkg →
    WMS.packageId pkg = id
    ∧ head (Spec.history pkg) = Some WMS.Received
    ∧ last (Spec.history pkg) = Some (WMS.status pkg).

(** The status a request gives its package when it succeeds. *)
Definition status_after (o : WMS.op) : WMS.Status :=
  match o with
  | WMS.Receive _ => WMS.Received
  | WMS.Store _ _ => WMS.Stored
  | WMS.Pick _ => WMS.Picked
  | WMS.Load _ _ => WMS.Loaded
  end.

(** The number of packages of a list in a given status. *)
Definition count_in (st : WMS.Status) (l : list WMS.Package) : nat :=
  length (filter (λ pkg, WMS.status pkg = st) l).

(** The manager [handleOrderFulfillment] leaves behind. *)
Definition manager_after (f : Queries.fulfilled) (m : WMS.manager)
  : WMS.manager :=
  match f with
  | Queries.Fulfilled _ m' => m'
  | Queries.PickThrew _ => m
  | Queries.ItemsMissing m' => m'
  end.

End Notions.

Import Spec.
Import Protocol.
Import Notions.

(** * Properties *)

(** ** Printing and reading numbers *)

Lemma digit_value_dec c :
  is_digit c → digit_value 10 c = Some (Z.of_N c - 48).
Proof.
  intros [Hlo Hhi]. unfold digit_value.
  destruct (N.leb_spec 48 c); [|lia].
  destruct (N.leb_spec c 57); [|lia]. simpl.
  destruct (Z.ltb_spec (Z.of_N c - 48) 10); [done|lia].
Qed.

Lemma parse_digits_dec s :
  Forall is_digit s → s ≠ [] →
  ∀ acc, parse_digits 10 s acc = Some (fold_left dec_step s (default 0 acc)).
Proof.
  induction 1 as [|c s Hc Hs IH]; [done|]. intros _ acc. simpl.
  rewrite (digit_value_dec c Hc).
  destruct s as [|c' s'].
  - done.
  - rewrite IH by done. done.
Qed.

Lemma fold_dec_step_app s1 s2 a :
  fold_left dec_step (s1 ++ s2) a = fold_left dec_step s2 (fold_left dec_step s1 a).
Proof. apply fold_left_app. Qed.

Lemma fold_dec_step_shift s :
  Forall is_digit s →
  ∀ a, fold_left dec_step s a = a * 10 ^ Z.of_nat (length s) + dec_value s
       ∧ 0 ≤ dec_value s < 10 ^ Z.of_nat (length s).
Proof.
  unfold dec_value.
  induction s as [|c s IH] using rev_ind; intros Hs a.
  - simpl. lia.
  - rewrite Forall_app, Forall_singleton in Hs.
    destruct Hs as [Hs [Hlo Hhi]].
    rewrite !fold_dec_step_app. simpl.
    destruct (IH Hs a) as [-> _]. destruct (IH Hs 0) as [_ Hb].
    rewrite length_app. simpl length.
    replace (Z.of_nat (length s + 1)) with (Z.succ (Z.of_nat (length s))) by lia.
    rewrite Z.pow_succ_r by lia.
    generalize dependent (fold_left dec_step s 0). intros v Hv.
    generalize dependent (10 ^ Z.of_nat (length s)). intros P HP.
    unfold dec_step. nia.
Qed.

Lemma digits_fuel_S f n acc :
  digits_fuel (S f) n acc =
  if n <? 10 then (48 + Z.to_N (n mod 10))%N :: acc
  else digits_fuel f (n / 10) ((48 + Z.to_N (n mod 10))%N :: acc).
Proof. done. Qed.

Lemma digits_fuel_spec f :
  ∀ n acc, 0 ≤ n < 2 ^ Z.of_nat f →
  ∃ ds, digits_fuel (S f) n acc = ds ++ acc
        ∧ Forall is_digit ds ∧ ds ≠ []
        ∧ dec_value ds = n
        ∧ ∀ k, (0 < k)%nat → n < 10 ^ Z.of_nat k → (length ds ≤ k)%nat.
Proof.
  induction f as [|f IH]; intros n acc Hn.
  - assert (n = 0) as -> by (simpl in Hn; lia).
    exists [48%N].
    split; [done|]. split; [repeat constructor; unfold is_digit; lia|].
    split; [done|]. split; [done|]. intros; simpl; lia.
  - rewrite digits_fuel_S. destruct (Z.ltb_spec n 10) as [Hlt|Hge].
    + exists [(48 + Z.to_N (n mod 10))%N].
      rewrite Z.mod_small by lia.
      split; [done|]. split; [repeat constructor; unfold is_digit; lia|].
      split; [done|].
      split; [unfold dec_value, dec_step; simpl; lia|].
      intros; simpl; lia.
    + assert (0 ≤ n / 10 < 2 ^ Z.of_nat f) as Hdiv.
      { replace (Z.of_nat (S f)) with (Z.succ (Z.of_nat f)) in Hn by lia.
        rewrite Z.pow_succ_r in Hn by lia.
        split; [apply Z.div_pos; lia|].
        apply Z.div_lt_upper_bound; lia. }
      destruct (IH (n / 10) ((48 + Z.to_N (n mod 10))%N :: acc) Hdiv)
        as (ds & Heq & Hds & Hne & Hval & Hlen).
      exists (ds ++ [(48 + Z.to_N (n mod 10))%N]).
      assert (0 ≤ n mod 10 < 10) as Hmod by (apply Z.mod_pos_bound; lia).
      split; [by rewrite Heq, <- app_assoc|].
      split; [apply Forall_app; split; [done|];
              repeat constructor; unfold is_digit; lia|].
      split; [by destruct ds|].
      split.
      * unfold dec_value in *. rewrite fold_dec_step_app, Hval. simpl.
        unfold dec_step. pose proof (Z.div_mod n 10). lia.
      * intros k Hk Hnk. rewrite length_app. simpl.
        destruct k as [|[|k]]; [lia| simpl in Hnk; lia |].
        assert (length ds ≤ S k)%nat; [|lia].
        apply Hlen; [lia|].
        replace (Z.of_nat (S (S k))) with (Z.succ (Z.of_nat (S k))) in Hnk by lia.
        rewrite Z.pow_succ_r in Hnk by lia.
        apply Z.div_lt_upper_bound; lia.
Qed.

Lemma digits_spec n :
  0 ≤ n →
  Forall is_digit (digits n) ∧ digits n ≠ [] ∧ dec_value (digits n) = n
  ∧ ∀ k, (0 < k)%nat → n < 10 ^ Z.of_nat k → (length (digits n) ≤ k)%nat.
Proof.
  intros Hn. unfold digits.
  destruct (digits_fuel_spec (S (Z.to_nat (Z.log2 n))) n []) as (ds & -> & H).
  - split; [done|].
    destruct (decide (n = 0)) as [->|]; [simpl; lia|].
    replace (Z.of_nat (S (Z.to_nat (Z.log2 n)))) with (Z.succ (Z.log2 n))
      by (pose proof (Z.log2_nonneg n); lia).
    apply Z.log2_spec. lia.
  - by rewrite app_nil_r.
Qed.

Lemma digit_not_whitespace c : is_digit c → is_whitespace c = false.
Proof.
  intros [Hlo Hhi].
  assert (c ∈ [48; 49; 50; 51; 52; 53; 54; 55; 56; 57]%N) as Hc.
  { rewrite !elem_of_cons. lia. }
  rewrite !elem_of_cons, elem_of_nil in Hc.
  by destruct Hc as [->|[->|[->|[->|[->|[->|[->|[->|[->|[->|[]]]]]]]]]]].
Qed.

Lemma parseInt_digits s :
  Forall is_digit s → s ≠ [] → parseInt s = Some (dec_value s).
Proof.
  intros Hs Hne. unfold parseInt.
  destruct s as [|c r]; [done|].
  pose proof (Forall_inv Hs) as Hc. pose proof Hc as [Hlo Hhi].
  cbn [skip_ws]. rewrite (digit_not_whitespace c Hc).
  destruct (N.eqb_spec c 45); [lia|]. destruct (N.eqb_spec c 43); [lia|].
  assert (parse_digits 10 (c :: r) None = Some (dec_value (c :: r))) as Hp.
  { by rewrite parse_digits_dec. }
  destruct r as [|cx r'].
  - rewrite Hp. simpl. f_equal. lia.
  - assert (is_digit cx) as [Hlo' Hhi'].
    { inversion Hs as [|? ? _ Hr]. by inversion Hr. }
    destruct (N.eqb_spec cx 120); [lia|]. destruct (N.eqb_spec cx 88); [lia|].
    rewrite andb_false_r. rewrite Hp. simpl. f_equal. lia.
Qed.

Lemma toString_nonneg n : 0 ≤ n → toString n = digits n.
Proof. intros Hn. unfold toString. by destruct (Z.ltb_spec n 0); [lia|]. Qed.

Lemma dec_value_zeros k s :
  dec_value (replicate k 48%N ++ s) = dec_value s.
Proof.
  unfold dec_value. rewrite fold_dec_step_app. f_equal.
  induction k as [|k IH]; [done|]. simpl. by rewrite <- IH at 2.
Qed.

Lemma length_padStart k c s : length (padStart k c s) = Nat.max k (length s).
Proof. unfold padStart. rewrite length_app, length_replicate. lia. Qed.

Lemma padStart_digits k s :
  Forall is_digit s → Forall is_digit (padStart k 48 s).
Proof.
  intros Hs. unfold padStart. apply Forall_app. split; [|done].
  apply Forall_replicate. unfold is_digit. lia.
Qed.

Lemma parseInt_padStart k n :
  0 ≤ n → parseInt (padStart k 48 (toString n)) = Some n.
Proof.
  intros Hn. rewrite toString_nonneg by done.
  destruct (digits_spec n Hn) as (Hds & Hne & Hval & _).
  rewrite parseInt_digits.
  - unfold padStart. by rewrite dec_value_zeros, Hval.
  - by apply padStart_digits.
  - unfold padStart. destruct (digits n); [done|]. by destruct (replicate _ _).
Qed.

Lemma parseInt_toString n : 0 ≤ n → parseInt (toString n) = Some n.
Proof. intros Hn. apply (parseInt_padStart 0 n Hn). Qed.

Lemma length_toString_le n k :
  0 ≤ n < 10 ^ Z.of_nat k → (0 < k)%nat → (length (toString n) ≤ k)%nat.
Proof.
  intros [Hn Hk] Hpos. rewrite toString_nonneg by done.
  destruct (digits_spec n Hn) as (_ & _ & _ & Hlen). by apply Hlen.
Qed.

Lemma length_toString_gt n k :
  10 ^ Z.of_nat k ≤ n → (k < length (toString n))%nat.
Proof.
  intros Hk.
  assert (0 ≤ n) as Hn by (pose proof (Z.pow_pos_nonneg 10 (Z.of_nat k)); lia).
  rewrite toString_nonneg by done.
  destruct (digits_spec n Hn) as (Hds & _ & Hval & _).
  destruct (fold_dec_step_shift _ Hds 0) as [_ [_ Hb]]. rewrite Hval in Hb.
  destruct (decide (k < length (digits n))%nat); [done|].
  assert (10 ^ Z.of_nat (length (digits n)) ≤ 10 ^ Z.of_nat k)
    by (apply Z.pow_le_mono_r; lia).
  lia.
Qed.

(** A clock reading of 13 digits: from September 2001 to November 2286. *)
Lemma length_toString_13 now :
  10 ^ 12 ≤ now < 10 ^ 13 → length (toString now) = 13%nat.
Proof.
  intros [Hlo Hhi].
  pose proof (length_toString_le now 13). pose proof (length_toString_gt now 12).
  change (Z.of_nat 13) with 13 in *. change (Z.of_nat 12) with 12 in *. lia.
Qed.

(** The length field has four characters up to 9999 and more above. *)
Lemma length_field_4 (n : nat) :
  Z.of_nat n ≤ 9999 → length (padStart 4 48 (toString (Z.of_nat n))) = 4%nat.
Proof.
  intros Hn. rewrite length_padStart.
  pose proof (length_toString_le (Z.of_nat n) 4).
  change (10 ^ Z.of_nat 4) with 10000 in *. lia.
Qed.

Lemma length_field_overflow (n : nat) :
  9999 < Z.of_nat n →
  padStart 4 48 (toString (Z.of_nat n)) = toString (Z.of_nat n)
  ∧ (4 < length (toString (Z.of_nat n)))%nat.
Proof.
  intros Hn. pose proof (length_toString_gt (Z.of_nat n) 4) as Hlen.
  change (10 ^ Z.of_nat 4) with 10000 in *.
  split; [|lia]. unfold padStart.
  replace (4 - length (toString (Z.of_nat n)))%nat with 0%nat by lia. done.
Qed.

(** ** The checksum *)

Lemma char_sum_app a b : char_sum (a ++ b) = (char_sum a + char_sum b)%N.
Proof.
  unfold char_sum. rewrite fold_left_app.
  generalize (fold_left N.add a 0%N). clear a.
  induction b as [|c b IH]; intros x; simpl; [lia|].
  rewrite IH, (IH (0 + c)%N). lia.
Qed.

Lemma char_sum_cons c s : char_sum (c :: s) = (c + char_sum s)%N.
Proof. apply (char_sum_app [c] s). Qed.

Lemma calculateChecksum_spec data :
  length (calculateChecksum data) = 2%nat
  ∧ Forall is_digit (calculateChecksum data)
  ∧ dec_value (calculateChecksum data) = Z.of_N (char_sum data mod 100).
Proof.
  unfold calculateChecksum.
  assert (char_sum data mod 100 < 100)%N as Hy by (by apply N.mod_upper_bound).
  revert Hy. generalize (char_sum data mod 100)%N. intros y Hy.
  set (v := Z.of_N y). assert (0 ≤ v < 100) as Hv by lia.
  split; [|split].
  - rewrite length_padStart. pose proof (length_toString_le v 2).
    change (10 ^ Z.of_nat 2) with 100 in *. lia.
  - apply padStart_digits. rewrite toString_nonneg by lia.
    apply digits_spec. lia.
  - unfold padStart. rewrite dec_value_zeros, toString_nonneg by lia.
    apply digits_spec. lia.
Qed.

Lemma calculateChecksum_length data : length (calculateChecksum data) = 2%nat.
Proof. apply calculateChecksum_spec. Qed.

(** Two strings have the same checksum exactly when their character sums
    agree modulo 100. *)
Lemma calculateChecksum_inj a b :
  calculateChecksum a = calculateChecksum b ↔
  (char_sum a mod 100 = char_sum b mod 100)%N.
Proof.
  split.
  - intros Heq.
    destruct (calculateChecksum_spec a) as (_ & _ & Ha).
    destruct (calculateChecksum_spec b) as (_ & _ & Hb).
    rewrite Heq in Ha. apply N2Z.inj. congruence.
  - intros Heq. unfold calculateChecksum. by rewrite Heq.
Qed.

(** ** [substring] and the layout of a message *)

Lemma clamp_le len x : (clamp len x ≤ len)%nat.
Proof. destruct x as [z|]; simpl; lia. Qed.

Lemma clamp_in_range len z :
  0 ≤ z ≤ Z.of_nat len → clamp len (Some z) = Z.to_nat z.
Proof. intros Hz. simpl. lia. Qed.

Lemma substring_range (a b : Z) (s : jsstring) :
  0 ≤ a ≤ b → b ≤ Z.of_nat (length s) →
  substring (Some a) (Some b) s = take (Z.to_nat (b - a)) (drop (Z.to_nat a) s).
Proof.
  intros Hab Hb. unfold substring.
  rewrite !clamp_in_range by lia.
  f_equal; [lia|]. f_equal. lia.
Qed.

Lemma length_substring_from x (s : jsstring) :
  length (substring_from x s) = (length s - clamp (length s) x)%nat.
Proof.
  unfold substring_from, substring.
  pose proof (clamp_le (length s) x) as Hx.
  rewrite (clamp_in_range (length s) (Z.of_nat (length s))) by lia.
  rewrite Nat2Z.id, length_take, length_drop. lia.
Qed.

Section Codec.
Context `{JSRuntime}.

(** An input whose length field does not announce its own payload size is
    rejected at the checksum comparison: what is left after the announced
    payload is not two characters long. *)
Lemma parseMessage_bad_length (raw : jsstring) :
  (26 ≤ length raw)%nat →
  parseInt (take 4 (drop 7 raw)) ≠ Some (Z.of_nat (length raw) - 26) →
  parseMessage raw = Null InvalidChecksum.
Proof.
  intros Hlen Hbad. unfold parseMessage.
  destruct (Nat.ltb_spec (length raw) 26); [lia|].
  rewrite (substring_range 7 11) by lia.
  change (Z.to_nat (11 - 7)) with 4%nat. change (Z.to_nat 7) with 7%nat.
  rewrite bool_decide_true; [done|].
  intros Heq. apply (f_equal length) in Heq.
  rewrite calculateChecksum_length, length_substring_from in Heq.
  destruct (parseInt (take 4 (drop 7 raw))) as [m|]; simpl in Heq; [|lia].
  apply Hbad. f_equal. lia.
Qed.

(** When it does, the checksum covers everything before the last two
    characters. *)
Lemma parseMessage_known_length (raw : jsstring) (n : nat) :
  length raw = (26 + n)%nat →
  parseInt (take 4 (drop 7 raw)) = Some (Z.of_nat n) →
  parseMessage raw =
    if bool_decide (drop (24 + n) raw ≠ calculateChecksum (take (24 + n) raw))
    then Null InvalidChecksum
    else match JSON_parse (take n (drop 24 raw)) with
         | Some p => Parsed {| type := take 7 raw;
                               timestamp := parseInt (take 13 (drop 11 raw));
                               payload := p;
                               raw := raw |}
         | None => Null ParseException
         end.
Proof.
  intros Hlen Hn. unfold parseMessage.
  destruct (Nat.ltb_spec (length raw) 26); [lia|].
  rewrite (substring_range 0 7), (substring_range 7 11),
    (substring_range 11 24) by lia.
  change (Z.to_nat (7 - 0)) with 7%nat. change (Z.to_nat 0) with 0%nat.
  change (Z.to_nat (11 - 7)) with 4%nat. change (Z.to_nat 7) with 7%nat.
  change (Z.to_nat (24 - 11)) with 13%nat. change (Z.to_nat 11) with 11%nat.
  rewrite Hn. cbn [add].
  rewrite (substring_range 24 (24 + Z.of_nat n)) by lia.
  unfold substring_from. rewrite (substring_range (24 + Z.of_nat n)) by lia.
  replace (Z.to_nat (24 + Z.of_nat n - 24)) with n by lia.
  replace (Z.to_nat (Z.of_nat (length raw) - (24 + Z.of_nat n))) with 2%nat by lia.
  replace (Z.to_nat (24 + Z.of_nat n)) with (24 + n)%nat by lia.
  change (Z.to_nat 24) with 24%nat. rewrite drop_0.
  rewrite (take_ge (drop _ _)) by (rewrite length_drop; lia).
  assert (take 7 raw ++ take 4 (drop 7 raw) ++ take 13 (drop 11 raw)
          ++ take n (drop 24 raw) = take (24 + n) raw) as ->.
  { rewrite !app_assoc, !take_take_drop. done. }
  done.
Qed.

End Codec.

Section Frames.
Context `{JSRuntime}.

(** The five fields of a message with a four-character length field. *)
Lemma frame_layout (t L ts pl ck : jsstring) :
  length t = 7%nat → length L = 4%nat → length ts = 13%nat →
  length ck = 2%nat →
  let frame := t ++ L ++ ts ++ pl ++ ck in
  length frame = (26 + length pl)%nat
  ∧ take 7 frame = t
  ∧ take 4 (drop 7 frame) = L
  ∧ take 13 (drop 11 frame) = ts
  ∧ take (length pl) (drop 24 frame) = pl
  ∧ take (24 + length pl) frame = t ++ L ++ ts ++ pl
  ∧ drop (24 + length pl) frame = ck.
Proof.
  intros Ht HL Hts Hck frame. subst frame.
  assert (drop 7 (t ++ L ++ ts ++ pl ++ ck) = L ++ ts ++ pl ++ ck) as H7
    by (by apply drop_app_length').
  assert (drop 11 (t ++ L ++ ts ++ pl ++ ck) = ts ++ pl ++ ck) as H11.
  { change 11%nat with (7 + 4)%nat. rewrite <- drop_drop, H7.
    by apply drop_app_length'. }
  assert (drop 24 (t ++ L ++ ts ++ pl ++ ck) = pl ++ ck) as H24.
  { change 24%nat with (11 + 13)%nat. rewrite <- drop_drop, H11.
    by apply drop_app_length'. }
  split; [rewrite !length_app; lia|].
  split; [by apply take_app_length'|].
  split; [rewrite H7; by apply take_app_length'|].
  split; [rewrite H11; by apply take_app_length'|].
  split; [rewrite H24; by apply take_app_length'|].
  assert (t ++ L ++ ts ++ pl ++ ck = (t ++ L ++ ts ++ pl) ++ ck) as ->
    by (by rewrite <- !app_assoc).
  split.
  - apply take_app_length'. rewrite !length_app. lia.
  - apply drop_app_length'. rewrite !length_app. lia.
Qed.

Lemma createMessage_layout now t p :
  length t = 7%nat → length (toString now) = 13%nat →
  Z.of_nat (length (JSON_stringify p)) ≤ 9999 →
  let n := length (JSON_stringify p) in
  let frame := createMessage now t p in
  let body := t ++ padStart 4 48 (toString (Z.of_nat n)) ++ toString now
                ++ JSON_stringify p in
  length frame = (26 + n)%nat
  ∧ take 7 frame = t
  ∧ take 4 (drop 7 frame) = padStart 4 48 (toString (Z.of_nat n))
  ∧ take 13 (drop 11 frame) = toString now
  ∧ take n (drop 24 frame) = JSON_stringify p
  ∧ take (24 + n) frame = body
  ∧ drop (24 + n) frame = calculateChecksum body.
Proof.
  intros Ht Hts Hn n frame body.
  pose proof (frame_layout t (padStart 4 48 (toString (Z.of_nat n)))
                (toString now) (JSON_stringify p) (calculateChecksum body)
                Ht (length_field_4 n Hn) Hts (calculateChecksum_length _)) as Hl.
  exact Hl.
Qed.

(** What [parseMessage] does with a message of [createMessage] whose
    payload fits the length field. *)
Lemma parseMessage_createMessage now t p :
  length t = 7%nat → 10 ^ 12 ≤ now < 10 ^ 13 →
  Z.of_nat (length (JSON_stringify p)) ≤ 9999 →
  parseMessage (createMessage now t p) =
    match JSON_parse (JSON_stringify p) with
    | Some p' => Parsed {| type := t; timestamp := Some now; payload := p';
                           raw := createMessage now t p |}
    | None => Null ParseException
    end.
Proof.
  intros Ht Hnow Hn.
  destruct (createMessage_layout now t p Ht (length_toString_13 now Hnow) Hn)
    as (Hlen & H7 & HL & Hts & Hpl & Hbody & Hck).
  rewrite (parseMessage_known_length _ _ Hlen)
    by (rewrite HL; apply parseInt_padStart; lia).
  rewrite Hck, Hbody, bool_decide_false by (by intros []).
  rewrite Hpl, H7, Hts, parseInt_toString by lia. done.
Qed.

End Frames.

(** ** Round trip of a message *)

(** Every message type of the protocol has seven characters. *)
Lemma MESSAGE_TYPES_length t : t ∈ MESSAGE_TYPES → length t = 7%nat.
Proof.
  unfold MESSAGE_TYPES. rewrite !elem_of_cons, elem_of_nil.
  intros [->|[->|[->|[->|[->|[->|[->|[->|[->|[]]]]]]]]]]; reflexivity.
Qed.

(** C1, amended: for every type of seven characters (all of MESSAGE_TYPES
    are), every clock reading of 13 digits and every payload that
    JSON.parse reads back from its JSON.stringify text, provided that text
    has at most 9999 characters, parseMessage accepts the message built by
    createMessage and returns that type, that time stamp and that
    payload. *)
Theorem parseMessage_createMessage_roundtrip `{JSRuntime} now t p :
  length t = 7%nat →
  10 ^ 12 ≤ now < 10 ^ 13 →
  Z.of_nat (length (JSON_stringify p)) ≤ 9999 →
  JSON_parse (JSON_stringify p) = Some p →
  parseMessage (createMessage now t p) =
    Parsed {| type := t; timestamp := Some now; payload := p;
              raw := createMessage now t p |}.
Proof.
  intros Ht Hnow Hn Hp.
  rewrite parseMessage_createMessage by done. by rewrite Hp.
Qed.

Lemma parseMessage_createMessage_roundtrip_witness :
  parseMessage (H := Examples.runtime)
    (createMessage (H := Examples.runtime) (Examples.clock 0)
       PACKAGE_RECEIVED Examples.sample_payload) =
  Parsed {| type := PACKAGE_RECEIVED;
            timestamp := Some (Examples.clock 0);
            payload := Examples.sample_payload;
            raw := createMessage (H := Examples.runtime) (Examples.clock 0)
                     PACKAGE_RECEIVED Examples.sample_payload |}.
Proof.
  apply (parseMessage_createMessage_roundtrip (H := Examples.runtime)).
  - reflexivity.
  - unfold Examples.clock. lia.
  - vm_compute. discriminate.
  - vm_compute. reflexivity.
Defined.

(** C1 as stated fails: a payload that JSON reads back, but whose text has
    10000 characters, makes a message that parseMessage rejects. *)
Lemma roundtrip_oversized_counterexample :
  PACKAGE_RECEIVED ∈ MESSAGE_TYPES
  ∧ JSON_parse (JSRuntime := Examples.runtime)
      (JSON_stringify (JSRuntime := Examples.runtime)
         Examples.oversized_payload)
    = Some Examples.oversized_payload
  ∧ parseMessage (H := Examples.runtime)
      (createMessage (H := Examples.runtime) (Examples.clock 0)
         PACKAGE_RECEIVED Examples.oversized_payload)
    = Null InvalidChecksum.
Proof.
  split; [by left|]. split; vm_compute; reflexivity.
Qed.

(** ** Payloads beyond the length field *)

(** C7, on the code: createMessage has no failure path.  For a payload
    whose JSON text is longer than 9999 characters it returns a message
    whose length field is the full decimal length, five characters or
    more instead of four, and parseMessage rejects that message. *)
Theorem createMessage_overflows_length_field `{JSRuntime} now t p :
  length t = 7%nat →
  10 ^ 12 ≤ now < 10 ^ 13 →
  9999 < Z.of_nat (length (JSON_stringify p)) →
  let lengthField := toString (Z.of_nat (length (JSON_stringify p))) in
  let body := t ++ lengthField ++ toString now ++ JSON_stringify p in
  createMessage now t p = body ++ calculateChecksum body
  ∧ (4 < length lengthField)%nat
  ∧ parseMessage (createMessage now t p) = Null InvalidChecksum.
Proof.
  intros Ht Hnow Hn lengthField body.
  destruct (length_field_overflow _ Hn) as [Hpad Hlen].
  assert (createMessage now t p = body ++ calculateChecksum body) as Hframe.
  { unfold createMessage. rewrite Hpad. unfold body, lengthField.
    by rewrite <- !app_assoc. }
  split; [done|]. split; [done|].
  assert (0 ≤ Z.of_nat (length (JSON_stringify p))) as Hpos by lia.
  destruct (digits_spec _ Hpos) as (Hds & _ & _ & _).
  rewrite <- toString_nonneg in Hds by done. fold lengthField in Hds, Hlen.
  assert (take 4 (drop 7 (createMessage now t p)) = take 4 lengthField) as HL.
  { rewrite Hframe. unfold body. rewrite <- !app_assoc.
    rewrite drop_app_length' by done. by rewrite take_app_le by lia. }
  assert (Forall is_digit (take 4 lengthField)) as Hds4 by (by apply Forall_take).
  destruct (fold_dec_step_shift _ Hds4 0) as [_ Hval].
  rewrite length_take_le in Hval by lia. change (10 ^ Z.of_nat 4) with 10000 in Hval.
  apply parseMessage_bad_length.
  - rewrite Hframe. unfold body. rewrite !length_app. lia.
  - assert (take 4 lengthField ≠ []) as Hne.
    { intros Hnil. apply (f_equal length) in Hnil.
      rewrite length_take_le in Hnil by lia. done. }
    rewrite HL, parseInt_digits by done.
    rewrite Hframe. unfold body.
    rewrite !length_app, calculateChecksum_length,
      (length_toString_13 now Hnow).
    intros [= Heq]. lia.
Qed.

Lemma createMessage_overflows_length_field_witness :
  let lengthField := js "10000" in
  let body := PACKAGE_RECEIVED ++ lengthField
              ++ toString (Examples.clock 0)
              ++ JSON_stringify (JSRuntime := Examples.runtime)
                   Examples.oversized_payload in
  createMessage (H := Examples.runtime) (Examples.clock 0) PACKAGE_RECEIVED
    Examples.oversized_payload = body ++ calculateChecksum body
  ∧ (4 < length lengthField)%nat
  ∧ parseMessage (H := Examples.runtime)
      (createMessage (H := Examples.runtime) (Examples.clock 0)
         PACKAGE_RECEIVED Examples.oversized_payload)
    = Null InvalidChecksum.
Proof.
  apply (createMessage_overflows_length_field (H := Examples.runtime)
           (Examples.clock 0) PACKAGE_RECEIVED Examples.oversized_payload).
  - reflexivity.
  - unfold Examples.clock. lia.
  - vm_compute. reflexivity.
Defined.

(** ** Corrupted messages *)

Lemma char_sum_insert (s : jsstring) i c c' :
  s !! i = Some c →
  (char_sum (<[i := c']> s) + c = char_sum s + c')%N.
Proof.
  intros Hi. pose proof (lookup_lt_Some _ _ _ Hi) as Hlt.
  rewrite insert_take_drop by done.
  rewrite <- (take_drop_middle s i c Hi) at 3.
  rewrite !char_sum_app, !char_sum_cons. lia.
Qed.

Lemma mod_100_cancel (s s' c c' : N) :
  (s' + c = s + c')%N → (s mod 100 = s' mod 100)%N →
  (c mod 100 = c' mod 100)%N.
Proof.
  intros Hsum Hmod. apply N2Z.inj. apply (f_equal Z.of_N) in Hmod.
  rewrite !N2Z.inj_mod in *. change (Z.of_N 100) with 100 in *.
  assert (Z.of_N s' + Z.of_N c = Z.of_N s + Z.of_N c') as Hz by lia.
  revert Hmod Hz. generalize (Z.of_N s) (Z.of_N s') (Z.of_N c) (Z.of_N c').
  intros. Z.div_mod_to_equations. lia.
Qed.

(** C2, amended: take a message built by createMessage (type of seven
    characters, clock reading of 13 digits, JSON text of at most 9999
    characters) and replace one character of its header or payload by a
    character whose code differs from the original's by something that is
    not a multiple of 100.  Then parseMessage rejects the result at the
    checksum comparison. *)
Theorem parseMessage_detects_corruption `{JSRuntime} now t p i c c' :
  length t = 7%nat →
  10 ^ 12 ≤ now < 10 ^ 13 →
  Z.of_nat (length (JSON_stringify p)) ≤ 9999 →
  (i < 24 + length (JSON_stringify p))%nat →
  createMessage now t p !! i = Some c →
  (c mod 100 ≠ c' mod 100)%N →
  parseMessage (<[i := c']> (createMessage now t p)) = Null InvalidChecksum.
Proof.
  intros Ht Hnow Hn Hi Hc Hdiff.
  destruct (createMessage_layout now t p Ht (length_toString_13 now Hnow) Hn)
    as (Hlen & _ & _ & _ & _ & Hbody & Hck).
  set (frame := createMessage now t p) in *.
  set (n := length (JSON_stringify p)) in *.
  assert (length (<[i := c']> frame) = (26 + n)%nat) as Hlen'
    by (by rewrite length_insert).
  destruct (decide (parseInt (take 4 (drop 7 (<[i := c']> frame)))
                    = Some (Z.of_nat n))) as [HL|HL].
  - rewrite (parseMessage_known_length _ n Hlen' HL).
    rewrite bool_decide_true; [done|]. rewrite <- Hbody in Hck.
    rewrite drop_insert_lt, take_insert_lt, Hck by lia.
    intros Heq. apply calculateChecksum_inj in Heq.
    apply Hdiff, (mod_100_cancel (char_sum (take (24 + n) frame))
                    (char_sum (<[i := c']> (take (24 + n) frame)))); [|done].
    apply char_sum_insert. by rewrite lookup_take_lt.
  - apply parseMessage_bad_length; [lia|].
    rewrite Hlen'. intros Heq. apply HL. rewrite Heq. f_equal. lia.
Qed.

Lemma mod_100_same (s s' c c' : N) :
  (s' + c = s + c')%N → (c mod 100 = c' mod 100)%N →
  (s mod 100 = s' mod 100)%N.
Proof.
  intros Hsum Hmod. apply N2Z.inj. apply (f_equal Z.of_N) in Hmod.
  rewrite !N2Z.inj_mod in *. change (Z.of_N 100) with 100 in *.
  assert (Z.of_N s' + Z.of_N c = Z.of_N s + Z.of_N c') as Hz by lia.
  revert Hmod Hz. generalize (Z.of_N s) (Z.of_N s') (Z.of_N c) (Z.of_N c').
  intros. Z.div_mod_to_equations. lia.
Qed.

(** The bound of the theorem is exact outside the length field: there, a
    replacement by a character whose code differs by a multiple of 100
    passes the checksum comparison. *)
Lemma parseMessage_misses_multiples_of_100 `{JSRuntime} now t p i c c' :
  length t = 7%nat →
  10 ^ 12 ≤ now < 10 ^ 13 →
  Z.of_nat (length (JSON_stringify p)) ≤ 9999 →
  (i < 7 ∨ 11 ≤ i)%nat →
  (i < 24 + length (JSON_stringify p))%nat →
  createMessage now t p !! i = Some c →
  (c mod 100 = c' mod 100)%N →
  parseMessage (<[i := c']> (createMessage now t p)) ≠ Null InvalidChecksum.
Proof.
  intros Ht Hnow Hn Hfield Hi Hc Hsame.
  destruct (createMessage_layout now t p Ht (length_toString_13 now Hnow) Hn)
    as (Hlen & _ & HL & _ & _ & Hbody & Hck).
  set (frame := createMessage now t p) in *.
  set (n := length (JSON_stringify p)) in *.
  assert (take 4 (drop 7 (<[i := c']> frame)) = take 4 (drop 7 frame)) as HL'.
  { destruct Hfield as [Hlt|Hge].
    - by rewrite drop_insert_lt by lia.
    - rewrite drop_insert_ge by lia. by rewrite take_insert_ge by lia. }
  assert (parseInt (take 4 (drop 7 (<[i := c']> frame))) = Some (Z.of_nat n))
    as Hint by (rewrite HL', HL; apply parseInt_padStart; lia).
  assert (length (<[i := c']> frame) = (26 + n)%nat) as Hlen'
    by (by rewrite length_insert).
  rewrite (parseMessage_known_length _ n Hlen' Hint).
  rewrite <- Hbody in Hck.
  rewrite drop_insert_lt, take_insert_lt, Hck by lia.
  rewrite bool_decide_false; [by destruct (JSON_parse _)|].
  intros Hne. apply Hne. apply calculateChecksum_inj.
  apply (mod_100_same _ _ c c'); [|done].
  apply char_sum_insert. by rewrite lookup_take_lt.
Qed.

Lemma parseMessage_detects_corruption_witness :
  parseMessage (H := Examples.runtime)
    (<[38%nat := 81%N]>
       (createMessage (H := Examples.runtime) (Examples.clock 0)
          PACKAGE_RECEIVED Examples.sample_payload))
  = Null InvalidChecksum.
Proof.
  apply (parseMessage_detects_corruption (H := Examples.runtime)
           (Examples.clock 0) PACKAGE_RECEIVED Examples.sample_payload
           38 80%N 81%N).
  - reflexivity.
  - unfold Examples.clock. lia.
  - vm_compute. discriminate.
  - vm_compute. lia.
  - vm_compute. reflexivity.
  - vm_compute. discriminate.
Defined.

(** C2 as stated fails: in the message for the sample payload, character
    38 is the P (code 80) of PKG123; replacing it by the character of code
    180 keeps the sum modulo 100, and parseMessage returns a message whose
    payload names another package. *)
Lemma corruption_accepted_counterexample :
  let frame := createMessage (H := Examples.runtime) (Examples.clock 0)
                 PACKAGE_RECEIVED Examples.sample_payload in
  (38 < 24 + length (JSON_stringify (JSRuntime := Examples.runtime)
                       Examples.sample_payload))%nat
  ∧ frame !! 38%nat = Some 80%N
  ∧ parseMessage (H := Examples.runtime) (<[38%nat := 180%N]> frame)
    = Parsed {| type := PACKAGE_RECEIVED;
                timestamp := Some (Examples.clock 0);
                payload := JObj [(js "packageId", JStr (180%N :: js "KG123"));
                                 (js "status", JStr (js "received"))];
                raw := <[38%nat := 180%N]> frame |}.
Proof.
  split; [vm_compute; lia|]. split; vm_compute; reflexivity.
Qed.

(** With plain ASCII too a replacement can pass the checksum: the opening
    brace (123) of the payload replaced by the control character 23 is
    caught only by JSON.parse. *)
Example corruption_reaches_JSON_parse :
  let frame := createMessage (H := Examples.runtime) (Examples.clock 0)
                 PACKAGE_RECEIVED Examples.sample_payload in
  frame !! 24%nat = Some 123%N
  ∧ parseMessage (H := Examples.runtime) (<[24%nat := 23%N]> frame)
    = Null ParseException.
Proof. split; vm_compute; reflexivity. Qed.

(** ** What is written to a socket *)

Section Hub.
Context `{JSRuntime}.

Lemma try_write_written message h c c' :
  written (try_write message h c) !!! c' =
    if decide (c' = c ∧ c ∉ failing h)
    then written h !!! c' ++ [message ++ [10%N]]
    else written h !!! c'.
Proof.
  unfold try_write, write.
  destruct (decide (c' = c ∧ c ∉ failing h)) as [[Heq Hf]|Hno].
  - subst c'. rewrite decide_False by done. cbn [written].
    by rewrite lookup_total_insert_eq.
  - destruct (decide (c ∈ failing h)) as [Hf|Hf]; [done|]. cbn [written].
    rewrite lookup_total_insert_ne; [done|]. intros ->. by apply Hno.
Qed.

Lemma try_write_failing message h c : failing (try_write message h c) = failing h.
Proof. unfold try_write, write. by destruct (decide _). Qed.

Lemma try_write_emitted message h c : emitted (try_write message h c) = emitted h.
Proof. unfold try_write, write. by destruct (decide _). Qed.

Lemma foldl_try_write_written message l :
  NoDup l → ∀ h c,
  written (foldl (try_write message) h l) !!! c =
    if decide (c ∈ l ∧ c ∉ failing h)
    then written h !!! c ++ [message ++ [10%N]]
    else written h !!! c.
Proof.
  induction 1 as [|c0 l Hc0 Hl IH]; intros h c; cbn [foldl].
  - destruct (decide _) as [[Hin _]|_]; [|done]. by apply elem_of_nil in Hin.
  - rewrite IH, try_write_failing, try_write_written.
    destruct (decide (c ∈ l ∧ c ∉ failing h)) as [[Hin Hf]|Hno];
      destruct (decide (c = c0 ∧ c0 ∉ failing h)) as [[Heq Hf0]|Hno0];
      destruct (decide (c ∈ c0 :: l ∧ c ∉ failing h)) as [[Hin' Hf']|Hno'];
      try subst c0; try done.
    + exfalso. apply Hno'. split; [by right|done].
    + exfalso. apply Hno'. split; [by left|done].
    + exfalso. apply elem_of_cons in Hin' as [Heq|?];
        [subst c0; by apply Hno0|by apply Hno].
Qed.

End Hub.

(** C10: what broadcast and sendToClient hand to a socket is the message of
    createMessage followed by one line feed.  sendToClient appends it to
    what was written to its client, broadcast to what was written to each
    client of the set; a socket whose write throws, and any other socket,
    receives nothing. *)
Theorem written_is_message_and_newline `{JSRuntime} type payload h :
  NoDup (clients h) →
  let message := createMessage (Date_now (ticks h)) type payload in
  (∀ client c,
     written (sendToClient client type payload h) !!! c =
       if decide (c = client ∧ client ∉ failing h)
       then written h !!! c ++ [message ++ [10%N]]
       else written h !!! c)
  ∧ (∀ c,
     written (broadcast type payload h) !!! c =
       if decide (c ∈ clients h ∧ c ∉ failing h)
       then written h !!! c ++ [message ++ [10%N]]
       else written h !!! c).
Proof.
  intros Hnd message. split.
  - intros client c. unfold sendToClient. by rewrite try_write_written.
  - intros c. unfold broadcast. by rewrite foldl_try_write_written.
Qed.

Lemma written_is_message_and_newline_witness :
  let h := Examples.three_clients in
  let message := createMessage (H := Examples.runtime) (Examples.clock 0)
                   PACKAGE_STORED Examples.sample_payload in
  (∀ client c,
     written (sendToClient (H := Examples.runtime) client PACKAGE_STORED
                Examples.sample_payload h) !!! c =
       if decide (c = client ∧ client ∉ failing h)
       then written h !!! c ++ [message ++ [10%N]]
       else written h !!! c)
  ∧ (∀ c,
     written (broadcast (H := Examples.runtime) PACKAGE_STORED
                Examples.sample_payload h) !!! c =
       if decide (c ∈ clients h ∧ c ∉ failing h)
       then written h !!! c ++ [message ++ [10%N]]
       else written h !!! c).
Proof.
  apply (written_is_message_and_newline (H := Examples.runtime)
           PACKAGE_STORED Examples.sample_payload Examples.three_clients).
  by apply (bool_decide_unpack _).
Defined.

(** The line a socket is handed is not itself a message for
    [parseMessage], which the adapter applies to the data it receives as
    they come: the line feed makes three characters of the checksum. *)
Lemma parseMessage_rejects_written_line `{JSRuntime} now t p :
  length t = 7%nat →
  10 ^ 12 ≤ now < 10 ^ 13 →
  Z.of_nat (length (JSON_stringify p)) ≤ 9999 →
  parseMessage (createMessage now t p ++ [10%N]) = Null InvalidChecksum.
Proof.
  intros Ht Hnow Hn.
  destruct (createMessage_layout now t p Ht (length_toString_13 now Hnow) Hn)
    as (Hlen & _ & HL & _).
  apply parseMessage_bad_length.
  - rewrite length_app, Hlen. simpl. lia.
  - rewrite drop_app_le, take_app_le by (rewrite ?length_drop; lia).
    rewrite HL, parseInt_padStart by lia.
    rewrite length_app, Hlen. simpl. intros [= Heq]. lia.
Qed.

(** ** One read at a time *)

Lemma split_no_separator sep (s : jsstring) : sep ∉ s → split sep s = [s].
Proof.
  induction s as [|c s IH]; intros Hs; [done|]. simpl.
  apply not_elem_of_cons in Hs as [Hne Hs].
  destruct (N.eqb_spec c sep); [congruence|]. by rewrite IH.
Qed.

Lemma skip_ws_head (s : jsstring) c :
  head s = Some c → is_whitespace c = false → skip_ws s = s.
Proof. destruct s; [done|]. intros [= ->] Hc. simpl. by rewrite Hc. Qed.

Lemma skip_ws_blank (ws s : jsstring) :
  Forall (λ c, is_whitespace c = true) ws → skip_ws (ws ++ s) = skip_ws s.
Proof. induction 1 as [|c ws Hc _ IH]; [done|]. simpl. by rewrite Hc. Qed.

Lemma trim_trailing (s ws : jsstring) :
  no_outer_space s → Forall (λ c, is_whitespace c = true) ws →
  trim (s ++ ws) = s.
Proof.
  intros [(c & Hhead & Hc) (c' & Hlast & Hc')] Hws. unfold trim.
  rewrite (skip_ws_head (s ++ ws) c); [|by destruct s|done].
  rewrite reverse_app, skip_ws_blank by (by apply Forall_reverse).
  rewrite (skip_ws_head (reverse s) c'); [|by rewrite head_reverse|done].
  apply reverse_involutive.
Qed.

Lemma trim_no_outer_space (s : jsstring) : no_outer_space s → trim s = s.
Proof.
  intros Hs. rewrite <- (app_nil_r s) at 1. by apply trim_trailing.
Qed.

Lemma trim_blank (ws : jsstring) :
  Forall (λ c, is_whitespace c = true) ws → trim ws = [].
Proof.
  intros Hws. unfold trim. rewrite <- (app_nil_r ws) at 1.
  by rewrite skip_ws_blank.
Qed.

Lemma split_nonempty sep (s : jsstring) : split sep s ≠ [].
Proof.
  destruct s as [|c s]; simpl; [done|].
  destruct (c =? sep)%N; [done|]. by destruct (split sep s).
Qed.

Lemma split_app sep (a b : jsstring) :
  split sep (a ++ sep :: b) = split sep a ++ split sep b.
Proof.
  induction a as [|c a IH]; simpl.
  - by rewrite N.eqb_refl.
  - rewrite IH. destruct (c =? sep)%N; [done|].
    pose proof (split_nonempty sep a). by destruct (split sep a).
Qed.

Lemma trim_surrounded (before s after : jsstring) :
  no_outer_space s →
  Forall (λ c, is_whitespace c = true) before →
  Forall (λ c, is_whitespace c = true) after →
  trim (before ++ s ++ after) = s.
Proof.
  intros Hs Hbefore Hafter.
  assert (trim (before ++ s ++ after) = trim (s ++ after)) as ->
    by (unfold trim; by rewrite skip_ws_blank).
  by apply trim_trailing.
Qed.

Lemma split_join_lines (lines : list jsstring) :
  lines ≠ [] → Forall (λ line, 10%N ∉ line) lines →
  split 10 (join_lines lines) = lines.
Proof.
  induction lines as [|line lines IH]; [done|]. intros _ Hlines.
  apply Forall_cons in Hlines as [Hline Hlines].
  destruct lines as [|line' lines].
  - by apply split_no_separator.
  - change (join_lines (line :: line' :: lines))
      with (line ++ 10%N :: join_lines (line' :: lines)).
    by rewrite split_app, split_no_separator, IH.
Qed.

Section Reads.
Context `{JSRuntime}.

(** A read that is one trimmed line is handled as one message. *)
Lemma handleClientData_one_line client (data : jsstring) h :
  trim data = data → 10%N ∉ data →
  handleClientData client data h = handle_messageStr client h data.
Proof.
  intros Htrim Hnl. unfold handleClientData.
  by rewrite Htrim, split_no_separator.
Qed.

(** A proper prefix of a message is never accepted. *)
Lemma parseMessage_prefix now t p k :
  length t = 7%nat → 10 ^ 12 ≤ now < 10 ^ 13 →
  Z.of_nat (length (JSON_stringify p)) ≤ 9999 →
  (k < length (createMessage now t p))%nat →
  ∃ why, parseMessage (take k (createMessage now t p)) = Null why.
Proof.
  intros Ht Hnow Hn Hk.
  destruct (createMessage_layout now t p Ht (length_toString_13 now Hnow) Hn)
    as (Hlen & _ & HL & _).
  set (frame := createMessage now t p) in *.
  destruct (decide (k < 26)%nat) as [Hshort|Hlong].
  - exists TooShort. unfold parseMessage.
    rewrite length_take_le by lia.
    by destruct (Nat.ltb_spec k 26); [|lia].
  - exists InvalidChecksum. apply parseMessage_bad_length.
    + rewrite length_take_le; lia.
    + rewrite take_drop_commute, take_take.
      replace (Nat.min (7 + 4) k) with (7 + 4)%nat by lia.
      rewrite <- take_drop_commute, HL, parseInt_padStart by lia.
      rewrite length_take_le by lia. intros [= Heq]. lia.
Qed.

End Reads.

(** C8, amended: handleClientData keeps nothing between calls.  Each read
    is trimmed and cut at line feeds, and each line is decoded on its own:
    whatever white space stands before and after them, the lines of a read
    are handled in their order, an empty line is skipped, a line that
    parseMessage accepts is answered with ACK_MSG and then emitted, a line
    it rejects is answered with ERR_MSG; a read of white space alone does
    nothing.  In particular the first part of a message that arrives in
    two reads is answered with ERR_MSG, and the protocol object is left as
    any other rejected read would leave it. *)
Theorem handleClientData_keeps_no_buffer `{JSRuntime} client h now t p k :
  length t = 7%nat →
  10 ^ 12 ≤ now < 10 ^ 13 →
  Z.of_nat (length (JSON_stringify p)) ≤ 9999 →
  (0 < k < length (createMessage now t p))%nat →
  trim (take k (createMessage now t p)) = take k (createMessage now t p) →
  10%N ∉ take k (createMessage now t p) →
  handleClientData client (take k (createMessage now t p)) h =
    sendToClient client ERROR
      (JObj [(js "error", JStr (js "Invalid message format"));
             (js "timestamp", JNum (Date_now (ticks h)))])
      (tick h)
  ∧ (∀ (data : jsstring) h',
      data ≠ [] → trim data = data → 10%N ∉ data →
      handleClientData client data h' =
        match parseMessage data with
        | Null _ =>
            sendToClient client ERROR
              (JObj [(js "error", JStr (js "Invalid message format"));
                     (js "timestamp", JNum (Date_now (ticks h')))])
              (tick h')
        | Parsed m =>
            emit_message client m
              (sendToClient client ACK
                 (JObj [(js "originalType", JStr (type m));
                        (js "timestamp", JNum (Date_now (ticks h')))])
                 (tick h'))
        end)
  ∧ (∀ (before after : jsstring) (lines : list jsstring) h',
      Forall (λ c, is_whitespace c = true) before →
      Forall (λ c, is_whitespace c = true) after →
      Forall (λ line, 10%N ∉ line) lines →
      no_outer_space (join_lines lines) →
      handleClientData client (before ++ join_lines lines ++ after) h' =
        foldl
          (λ h0 line,
             match line with
             | [] => h0
             | _ =>
                 match parseMessage line with
                 | Null _ =>
                     sendToClient client ERROR
                       (JObj [(js "error",
                               JStr (js "Invalid message format"));
                              (js "timestamp", JNum (Date_now (ticks h0)))])
                       (tick h0)
                 | Parsed m =>
                     emit_message client m
                       (sendToClient client ACK
                          (JObj [(js "originalType", JStr (type m));
                                 (js "timestamp",
                                  JNum (Date_now (ticks h0)))])
                          (tick h0))
                 end
             end)
          h' lines)
  ∧ (∀ (blank : jsstring) h',
      Forall (λ c, is_whitespace c = true) blank →
      handleClientData client blank h' = h').
Proof.
  intros Ht Hnow Hn [Hk0 Hk] Htrim Hnl.
  assert (∀ (data : jsstring) h',
      data ≠ [] → trim data = data → 10%N ∉ data →
      handleClientData client data h' =
        match parseMessage data with
        | Null _ =>
            sendToClient client ERROR
              (JObj [(js "error", JStr (js "Invalid message format"));
                     (js "timestamp", JNum (Date_now (ticks h')))])
              (tick h')
        | Parsed m =>
            emit_message client m
              (sendToClient client ACK
                 (JObj [(js "originalType", JStr (type m));
                        (js "timestamp", JNum (Date_now (ticks h')))])
                 (tick h'))
        end) as Hline.
  { intros data h' Hne Ht' Hnl'.
    rewrite handleClientData_one_line by done.
    unfold handle_messageStr. by destruct data. }
  split; [|split; [done|split]].
  - rewrite Hline; [|intros Hnil; apply (f_equal length) in Hnil;
                     rewrite length_take_le in Hnil by lia; simpl in Hnil; lia
                    |done|done].
    by destruct (parseMessage_prefix now t p k Ht Hnow Hn Hk) as [why ->].
  - intros before after lines h' Hbefore Hafter Hlines Hcore.
    unfold handleClientData.
    rewrite trim_surrounded by done.
    rewrite split_join_lines; [done| |done].
    intros ->. by destruct Hcore as [(c & Hhead & _) _].
  - intros blank h' Hblank. unfold handleClientData. by rewrite trim_blank.
Qed.

Lemma handleClientData_keeps_no_buffer_witness :
  let frame := createMessage (H := Examples.runtime) (Examples.clock 0)
                 PACKAGE_RECEIVED Examples.sample_payload in
  let h := Examples.one_client in
  handleClientData (H := Examples.runtime) 1 (take 30 frame) h =
    sendToClient (H := Examples.runtime) 1 ERROR
      (JObj [(js "error", JStr (js "Invalid message format"));
             (js "timestamp", JNum (Examples.clock 0))])
      (tick h)
  ∧ handleClientData (H := Examples.runtime) 1
      ([32; 13; 10]%N ++ join_lines [frame; take 30 frame] ++ [13; 10]%N) h =
    sendToClient (H := Examples.runtime) 1 ERROR
      (JObj [(js "error", JStr (js "Invalid message format"));
             (js "timestamp", JNum (Examples.clock 2))])
      (tick
         (emit_message 1
            {| type := PACKAGE_RECEIVED;
               timestamp := Some (Examples.clock 0);
               payload := Examples.sample_payload;
               raw := frame |}
            (sendToClient (H := Examples.runtime) 1 ACK
               (JObj [(js "originalType", JStr PACKAGE_RECEIVED);
                      (js "timestamp", JNum (Examples.clock 0))])
               (tick h)))).
Proof.
  intros frame h.
  assert (length PACKAGE_RECEIVED = 7%nat) as Ht by reflexivity.
  assert (10 ^ 12 ≤ Examples.clock 0 < 10 ^ 13) as Hnow
    by (unfold Examples.clock; lia).
  assert (Z.of_nat (length (JSON_stringify (JSRuntime := Examples.runtime)
                              Examples.sample_payload)) ≤ 9999) as Hn
    by (vm_compute; discriminate).
  assert (0 < 30 < length frame)%nat as Hk by (vm_compute; lia).
  assert (trim (take 30 frame) = take 30 frame) as Htrim
    by (vm_compute; reflexivity).
  assert (10%N ∉ take 30 frame) as Hnl by (by apply (bool_decide_unpack _)).
  pose proof (handleClientData_keeps_no_buffer (H := Examples.runtime) 1
                h (Examples.clock 0) PACKAGE_RECEIVED Examples.sample_payload
                30 Ht Hnow Hn Hk Htrim Hnl) as (Hfirst & _ & Hlines & _).
  split; [exact Hfirst|].
  rewrite Hlines.
  - vm_compute. reflexivity.
  - by repeat constructor.
  - by repeat constructor.
  - repeat constructor; by apply (bool_decide_unpack _).
  - split; eexists; (split; [vm_compute; reflexivity|reflexivity]).
Defined.

(** C8 as stated fails: the sample message, read as its first 30
    characters and then the rest, leaves the client with two ERR_MSG
    replies and nothing emitted. *)
Lemma split_frame_counterexample :
  let frame := createMessage (H := Examples.runtime) (Examples.clock 0)
                 PACKAGE_RECEIVED Examples.sample_payload in
  let error_at n := JObj [(js "error", JStr (js "Invalid message format"));
                          (js "timestamp", JNum (Examples.clock n))] in
  let h1 := handleClientData (H := Examples.runtime) 1 (take 30 frame)
              Examples.one_client in
  let h2 := handleClientData (H := Examples.runtime) 1 (drop 30 frame) h1 in
  (∃ m, parseMessage (H := Examples.runtime) frame = Parsed m)
  ∧ written h1 !!! 1%nat
    = [createMessage (H := Examples.runtime) (Examples.clock 1) ERROR
         (error_at 0%nat) ++ [10%N]]
  ∧ written h2 !!! 1%nat
    = [createMessage (H := Examples.runtime) (Examples.clock 1) ERROR
         (error_at 0%nat) ++ [10%N];
       createMessage (H := Examples.runtime) (Examples.clock 3) ERROR
         (error_at 2%nat) ++ [10%N]]
  ∧ emitted h2 = [].
Proof.
  split; [eexists; vm_compute; reflexivity|].
  split; [vm_compute; reflexivity|]. split; vm_compute; reflexivity.
Qed.

(** ** The package handler *)

Lemma includes_prefix (s sub : jsstring) :
  sub `prefix_of` s → includes s sub = true.
Proof.
  intros Hp. destruct s; simpl; by rewrite bool_decide_true.
Qed.

Lemma includes_middle (a sub b : jsstring) : includes (a ++ sub ++ b) sub = true.
Proof.
  induction a as [|c a IH].
  - apply includes_prefix. by exists b.
  - simpl. rewrite IH. apply orb_true_r.
Qed.

Lemma valid_status_name st : WMS.valid_status (WMS.status_name st) = Some st.
Proof. by destruct st. Qed.

Section HandlerFacts.
Context `{JSRuntime}.
Variable warehouse : jsstring.

(** [updatePackageStatus] with the name of a status, on a known package. *)
Lemma updatePackageStatus_known id st location description m pkg :
  WMS.getPackage id m = Some pkg →
  ∃ pkg' m',
    WMS.updatePackageStatus id (WMS.status_name st) location description m
      = WMS.Returned (Some pkg') m'
    ∧ WMS.packages m' = <[id := pkg']> (WMS.packages m)
    ∧ WMS.status pkg' = st
    ∧ WMS.assignedVehicle pkg' = WMS.assignedVehicle pkg
    ∧ WMS.packageId pkg' = WMS.packageId pkg
    ∧ ∃ ev, WMS.events pkg' = WMS.events pkg ++ [ev]
            ∧ WMS.eventType ev = st
            ∧ WMS.description ev =
                if WMS.truthy description then default [] description
                else js "Package status updated to " ++ WMS.status_name st.
Proof.
  intros Hpkg. unfold WMS.updatePackageStatus, WMS.updateStatus.
  rewrite Hpkg, valid_status_name.
  eexists _, _. split; [reflexivity|]. simpl.
  repeat split; try done. eexists. split; [reflexivity|]. done.
Qed.

Lemma updatePackageStatus_unknown id newStatus location description m :
  WMS.getPackage id m = None →
  WMS.updatePackageStatus id newStatus location description m
    = WMS.Returned None m.
Proof. intros Hpkg. unfold WMS.updatePackageStatus. by rewrite Hpkg. Qed.

(** [loadPackage] on a known package. *)
Lemma loadPackage_known id vehicleId m pkg :
  WMS.getPackage id m = Some pkg →
  ∃ r m' pkg' ev,
    WMS.loadPackage id vehicleId m = WMS.Returned r m'
    ∧ WMS.ld_status r = js "loaded"
    ∧ WMS.ld_vehicleId r = vehicleId
    ∧ WMS.getPackage id m' = Some pkg'
    ∧ WMS.assignedVehicle pkg' = vehicleId
    ∧ WMS.status pkg' = WMS.Loaded
    ∧ WMS.events pkg' = WMS.events pkg ++ [ev]
    ∧ WMS.eventType ev = WMS.Loaded
    ∧ WMS.description ev
      = js "Package loaded onto vehicle " ++ WMS.interpolate vehicleId
    ∧ ∀ id', id' ≠ id → WMS.getPackage id' m' = WMS.getPackage id' m.
Proof.
  intros Hpkg.
  unfold WMS.loadPackage, WMS.assignPackageToVehicle. rewrite Hpkg.
  unfold WMS.assignToVehicle, WMS.updateStatus.
  change (js "loaded") with (WMS.status_name WMS.Loaded).
  rewrite valid_status_name.
  eexists _, _, _, _. split; [reflexivity|].
  unfold WMS.getPackage. simpl.
  split; [done|]. split; [done|]. split; [by rewrite lookup_insert_eq|].
  repeat split; try done.
  intros id' Hid'. by rewrite lookup_insert_ne.
Qed.

Lemma loadPackage_unknown id vehicleId m :
  WMS.getPackage id m = None →
  WMS.loadPackage id vehicleId m = WMS.Thrown (WMS.NotFound id).
Proof.
  intros Hnone.
  unfold WMS.loadPackage, WMS.assignPackageToVehicle. by rewrite Hnone.
Qed.

End HandlerFacts.

(** C3, amended: receivePackage has no duplicate check.  Whenever
    packageId and clientId are non-empty it succeeds, whether or not the
    packageId is already present: it puts under that id (replacing what
    was there) a new package in status received with exactly one event,
    the seed event, leaves every other package as it was, and returns a
    receipt for it. *)
Theorem receivePackage_always_stores `{JSRuntime} warehouse d m id client :
  WMS.pd_packageId d = Some id → id ≠ [] →
  WMS.pd_clientId d = Some client → client ≠ [] →
  ∃ pkg m' ev,
    WMS.receivePackage warehouse d m =
      WMS.Returned
        {| WMS.rc_status := js "received"; WMS.rc_packageId := id;
           WMS.rc_warehouse := warehouse;
           WMS.rc_receiptTime := WMS.createdAt pkg;
           WMS.rc_nextStep := js "storage_assignment" |} m'
    ∧ WMS.getPackage id m' = Some pkg
    ∧ WMS.packageId pkg = id
    ∧ WMS.status pkg = WMS.Received
    ∧ WMS.events pkg = [ev]
    ∧ WMS.eventType ev = WMS.Received
    ∧ WMS.description ev = js "Package received from client"
    ∧ ∀ id', id' ≠ id → WMS.getPackage id' m' = WMS.getPackage id' m.
Proof.
  intros Hid Hne Hcl Hcne. unfold WMS.receivePackage.
  rewrite Hid, Hcl. destruct id as [|c id]; [done|].
  destruct client as [|c' client]; [done|]. cbn [WMS.truthy negb orb default].
  eexists _, _, _. split; [reflexivity|].
  unfold WMS.getPackage. simpl.
  split; [by rewrite lookup_insert_eq|]. repeat split; try done.
  intros id' Hid'. by rewrite lookup_insert_ne.
Qed.

Lemma receivePackage_always_stores_witness :
  ∃ pkg m' ev,
    WMS.receivePackage (H := Examples.runtime) Examples.warehouse
      Examples.sample_package WMS.new_PackageManager =
      WMS.Returned
        {| WMS.rc_status := js "received";
           WMS.rc_packageId := Examples.PKG001;
           WMS.rc_warehouse := Examples.warehouse;
           WMS.rc_receiptTime := WMS.createdAt pkg;
           WMS.rc_nextStep := js "storage_assignment" |} m'
    ∧ WMS.getPackage Examples.PKG001 m' = Some pkg
    ∧ WMS.packageId pkg = Examples.PKG001
    ∧ WMS.status pkg = WMS.Received
    ∧ WMS.events pkg = [ev]
    ∧ WMS.eventType ev = WMS.Received
    ∧ WMS.description ev = js "Package received from client"
    ∧ ∀ id', id' ≠ Examples.PKG001 →
        WMS.getPackage id' m' = WMS.getPackage id' WMS.new_PackageManager.
Proof.
  apply (receivePackage_always_stores (H := Examples.runtime)
           Examples.warehouse Examples.sample_package WMS.new_PackageManager
           Examples.PKG001 (js "CLIENT001")).
  - reflexivity.
  - vm_compute. discriminate.
  - reflexivity.
  - vm_compute. discriminate.
Defined.

(** C3 as stated fails: PKG001 is received and stored; receiving PKG001
    again does not throw, and the package under that id is then a new one
    in status received with a single event. *)
Lemma duplicate_receive_counterexample :
  let m1 := WMS.serve_all (H := Examples.runtime) Examples.warehouse
              WMS.new_PackageManager
              [WMS.Receive Examples.sample_package;
               WMS.Store Examples.PKG001 (WMS.Str (js "A1"))] in
  Spec.history <$> WMS.getPackage Examples.PKG001 m1
    = Some [WMS.Received; WMS.Stored]
  ∧ ∃ r m2,
      WMS.receivePackage (H := Examples.runtime) Examples.warehouse
        Examples.sample_package m1 = WMS.Returned r m2
      ∧ WMS.status <$> WMS.getPackage Examples.PKG001 m2 = Some WMS.Received
      ∧ Spec.history <$> WMS.getPackage Examples.PKG001 m2
        = Some [WMS.Received].
Proof.
  split; [vm_compute; reflexivity|].
  eexists _, _. split; [reflexivity|]. split; vm_compute; reflexivity.
Qed.

(** C5: pickPackage on a known package whose status is not stored throws
    the error whose message reads "Package <id> is not ready for pickup.
    Current status: <status>. Expected: stored", which includes the
    current status and the expected one, and leaves the manager as it
    was; this is what happens right after receivePackage.  On a package
    in status stored it returns, and the package is then in status picked
    with one more event. *)
Theorem pickPackage_requires_stored `{JSRuntime} warehouse m id pkg :
  WMS.getPackage id m = Some pkg →
  (WMS.status pkg ≠ WMS.Stored →
     WMS.pickPackage id m
       = WMS.Thrown (WMS.NotReady id (WMS.status pkg)))
  ∧ WMS.error_message (WMS.NotReady id (WMS.status pkg))
      = js "Package " ++ id ++ js " is not ready for pickup. Current status: "
        ++ WMS.status_name (WMS.status pkg) ++ js ". Expected: stored"
  ∧ includes (WMS.error_message (WMS.NotReady id (WMS.status pkg)))
      (WMS.status_name (WMS.status pkg)) = true
  ∧ includes (WMS.error_message (WMS.NotReady id (WMS.status pkg)))
      (WMS.status_name WMS.Stored) = true
  ∧ (WMS.status pkg = WMS.Stored →
     ∃ r m' pkg' ev,
       WMS.pickPackage id m = WMS.Returned r m'
       ∧ WMS.pk_status r = js "picked"
       ∧ WMS.getPackage id m' = Some pkg'
       ∧ WMS.status pkg' = WMS.Picked
       ∧ WMS.events pkg' = WMS.events pkg ++ [ev]
       ∧ WMS.eventType ev = WMS.Picked)
  ∧ (∀ d m0 r, WMS.receivePackage warehouse d m0 = WMS.Returned r m →
     WMS.rc_packageId r = id →
     WMS.pickPackage id m
       = WMS.Thrown (WMS.NotReady id WMS.Received)).
Proof.
  intros Hpkg. split; [|split; [|split; [|split; [|split]]]].
  - intros Hst. unfold WMS.pickPackage. rewrite Hpkg.
    by rewrite bool_decide_true.
  - done.
  - unfold WMS.error_message.
    rewrite (app_assoc (js "Package ")), (app_assoc (js "Package " ++ id)).
    apply includes_middle.
  - unfold WMS.error_message.
    change (js ". Expected: stored")
      with (js ". Expected: " ++ WMS.status_name WMS.Stored ++ []).
    rewrite (app_assoc (js "Package ")), (app_assoc (js "Package " ++ id)),
      (app_assoc _ (WMS.status_name (WMS.status pkg))),
      (app_assoc _ (js ". Expected: ")).
    apply includes_middle.
  - intros Hst. unfold WMS.pickPackage. rewrite Hpkg.
    rewrite bool_decide_false by (by intros ?).
    destruct (updatePackageStatus_known id WMS.Picked None
                (Some (js "Package picked for order fulfillment")) m pkg Hpkg)
      as (pkg' & m' & Hup & Hpk & Hst' & _ & _ & ev & Hev & Hty & _).
    change (WMS.status_name WMS.Picked) with (js "picked") in Hup.
    rewrite Hup. eexists _, m', pkg', ev. split; [reflexivity|].
    split; [done|]. split; [|done].
    unfold WMS.getPackage. rewrite Hpk. by rewrite lookup_insert_eq.
  - intros d m0 r Hrecv Hr. unfold WMS.pickPackage. rewrite Hpkg.
    assert (WMS.status pkg = WMS.Received) as Hst.
    { unfold WMS.receivePackage in Hrecv.
      destruct (_ || _); [done|]. simpl in Hrecv.
      injection Hrecv as Hreq Hm. subst r m. simpl in Hr.
      unfold WMS.getPackage in Hpkg. simpl in Hpkg.
      rewrite Hr, lookup_insert_eq in Hpkg. by injection Hpkg as <-. }
    rewrite Hst. by rewrite bool_decide_true.
Qed.

Lemma pickPackage_requires_stored_witness :
  WMS.pickPackage (H := Examples.runtime) Examples.PKG001
    Examples.after_receive
  = WMS.Thrown (WMS.NotReady Examples.PKG001 WMS.Received).
Proof.
  refine (proj1 (pickPackage_requires_stored (H := Examples.runtime)
                   Examples.warehouse Examples.after_receive Examples.PKG001
                   Examples.received_package _) _).
  - vm_compute. reflexivity.
  - vm_compute. discriminate.
Defined.

(** C6: loadPackage on a known package returns whatever the status of the
    package is: the package then has the given vehicle as assignedVehicle,
    is in status loaded, and has one more event, of type loaded, that names
    the vehicle; every other package is as before.  On an unknown packageId
    it throws "Package <id> not found", and it throws nothing else. *)
Theorem loadPackage_from_any_status `{JSRuntime} id vehicleId m :
  (∀ pkg, WMS.getPackage id m = Some pkg →
     ∃ r m' pkg' ev,
       WMS.loadPackage id vehicleId m = WMS.Returned r m'
       ∧ WMS.ld_status r = js "loaded"
       ∧ WMS.ld_vehicleId r = vehicleId
       ∧ WMS.getPackage id m' = Some pkg'
       ∧ WMS.assignedVehicle pkg' = vehicleId
       ∧ WMS.status pkg' = WMS.Loaded
       ∧ WMS.events pkg' = WMS.events pkg ++ [ev]
       ∧ WMS.eventType ev = WMS.Loaded
       ∧ WMS.description ev
         = js "Package loaded onto vehicle " ++ WMS.interpolate vehicleId
       ∧ ∀ id', id' ≠ id → WMS.getPackage id' m' = WMS.getPackage id' m)
  ∧ (WMS.getPackage id m = None →
     WMS.loadPackage id vehicleId m = WMS.Thrown (WMS.NotFound id))
  ∧ (∀ e, WMS.loadPackage id vehicleId m = WMS.Thrown e →
     e = WMS.NotFound id ∧ WMS.getPackage id m = None)
  ∧ WMS.error_message (WMS.NotFound id)
    = js "Package " ++ id ++ js " not found".
Proof.
  split; [intros pkg; apply loadPackage_known|].
  split; [apply loadPackage_unknown|]. split; [|done].
  intros e He. destruct (WMS.getPackage id m) as [pkg|] eqn:Hpkg.
  - destruct (loadPackage_known id vehicleId m pkg Hpkg)
      as (r & m' & _ & _ & Hret & _).
    congruence.
  - rewrite loadPackage_unknown in He by done. by injection He as <-.
Qed.

(** ** The order of the history *)

Lemma nondecreasing_snoc l a b :
  nondecreasing l = true → last l = Some a → (WMS.rank a ≤ WMS.rank b)%nat →
  nondecreasing (l ++ [b]) = true.
Proof.
  induction l as [|x l IH]; intros Hl Hlast Hab; [done|].
  destruct l as [|y l].
  - simpl in *. injection Hlast as ->.
    rewrite andb_true_r. by apply Nat.leb_le.
  - cbn [nondecreasing] in Hl. apply andb_true_iff in Hl as [Hxy Hl].
    change ((x :: y :: l) ++ [b]) with (x :: (y :: l) ++ [b]).
    cbn [nondecreasing app]. cbn [app] in IH.
    rewrite Hxy. simpl. apply IH; done.
Qed.

Lemma coherent_append (pkg pkg' : WMS.Package) ev :
  coherent pkg →
  WMS.events pkg' = WMS.events pkg ++ [ev] →
  WMS.eventType ev = WMS.status pkg' →
  (WMS.rank (WMS.status pkg) ≤ WMS.rank (WMS.status pkg'))%nat →
  coherent pkg'.
Proof.
  intros [Hnd Hlast] Hev Hty Hrank. unfold coherent, history in *.
  rewrite Hev, fmap_app. simpl. rewrite Hty. split.
  - by apply (nondecreasing_snoc _ (WMS.status pkg)).
  - by rewrite last_snoc.
Qed.

Section History.
Context `{JSRuntime}.
Variable warehouse : jsstring.

(** One request keeps every history in order, provided a [Store] finds
    its package no further than stored. *)
Lemma serve_coherent m o :
  (∀ id pkg, WMS.getPackage id m = Some pkg → coherent pkg) →
  stores_in_order warehouse m [o] = true →
  ∀ id pkg, WMS.getPackage id (WMS.serve warehouse m o) = Some pkg →
            coherent pkg.
Proof.
  intros Hm Hguard id pkg.
  assert (∀ id0 pkg0 pkg' m' ev,
            WMS.getPackage id0 m = Some pkg0 →
            WMS.packages m' = <[id0 := pkg']> (WMS.packages m) →
            WMS.events pkg' = WMS.events pkg0 ++ [ev] →
            WMS.eventType ev = WMS.status pkg' →
            (WMS.rank (WMS.status pkg0) ≤ WMS.rank (WMS.status pkg'))%nat →
            WMS.getPackage id m' = Some pkg → coherent pkg) as Hupd.
  { intros id0 pkg0 pkg' m' ev Hp0 Hm' Hev Hty Hrank Hget.
    unfold WMS.getPackage in Hget. rewrite Hm' in Hget.
    destruct (decide (id0 = id)) as [->|Hne].
    - rewrite lookup_insert_eq in Hget. injection Hget as <-.
      by apply (coherent_append pkg0 pkg' ev); [apply (Hm id)|..].
    - rewrite lookup_insert_ne in Hget by done. by apply (Hm id). }
  destruct o as [d|id0 loc|id0|id0 v]; cbn [WMS.serve].
  - unfold WMS.receivePackage. destruct (_ || _); [apply Hm|].
    cbn [WMS.addPackage WMS.state_of]. unfold WMS.getPackage. simpl.
    destruct (decide (default [] (WMS.pd_packageId d) = id)) as [->|Hne].
    + rewrite lookup_insert_eq. by intros [= <-].
    + rewrite lookup_insert_ne by done. apply Hm.
  - unfold WMS.storePackage.
    destruct (WMS.getPackage id0 m) as [pkg0|] eqn:Hp0.
    + destruct (updatePackageStatus_known id0 WMS.Stored (WMS.to_option loc)
                  (Some (js "Package stored at " ++ WMS.interpolate loc))
                  m pkg0 Hp0)
        as (pkg' & m' & Hup & Hpk & Hst & _ & _ & ev & Hev & Hty & _).
      change (WMS.status_name WMS.Stored) with (js "stored") in Hup.
      rewrite Hup. cbn [WMS.state_of].
      apply (Hupd id0 pkg0 pkg' m' ev); try done; [congruence|].
      cbn [stores_in_order] in Hguard. rewrite Hp0 in Hguard.
      apply andb_true_iff in Hguard as [Hle _]. apply Nat.leb_le in Hle.
      rewrite Hst. simpl. lia.
    + rewrite updatePackageStatus_unknown by done. apply Hm.
  - unfold WMS.pickPackage.
    destruct (WMS.getPackage id0 m) as [pkg0|] eqn:Hp0; [|apply Hm].
    destruct (decide (WMS.status pkg0 = WMS.Stored)) as [Hs|Hs].
    + rewrite bool_decide_false by (by intros ?).
      destruct (updatePackageStatus_known id0 WMS.Picked None
                  (Some (js "Package picked for order fulfillment"))
                  m pkg0 Hp0)
        as (pkg' & m' & Hup & Hpk & Hst & _ & _ & ev & Hev & Hty & _).
      change (WMS.status_name WMS.Picked) with (js "picked") in Hup.
      rewrite Hup. cbn [WMS.state_of].
      apply (Hupd id0 pkg0 pkg' m' ev); try done; [congruence|].
      rewrite Hs, Hst. simpl. lia.
    + rewrite bool_decide_true by done. apply Hm.
  - destruct (WMS.getPackage id0 m) as [pkg0|] eqn:Hp0.
    + destruct (loadPackage_known id0 v m pkg0 Hp0)
        as (r & m' & pkg' & ev & -> & _ & _ & Hget' & _ & Hst & Hev & Hty & _
            & Hother).
      cbn [WMS.state_of]. destruct (decide (id0 = id)) as [->|Hne].
      * rewrite Hget'. intros [= <-].
        apply (coherent_append pkg0 pkg' ev); try done;
          [by apply (Hm id)|congruence|].
        rewrite Hst. destruct (WMS.status pkg0); simpl; lia.
      * rewrite Hother by done. apply Hm.
    + rewrite loadPackage_unknown by done. apply Hm.
Qed.

Lemma serve_all_coherent ops :
  ∀ m, (∀ id pkg, WMS.getPackage id m = Some pkg → coherent pkg) →
  stores_in_order warehouse m ops = true →
  ∀ id pkg, WMS.getPackage id (WMS.serve_all warehouse m ops) = Some pkg →
            coherent pkg.
Proof.
  induction ops as [|o ops IH]; intros m Hm Hguard; [done|].
  cbn [stores_in_order] in Hguard. apply andb_true_iff in Hguard as [Ho Hops].
  apply (IH (WMS.serve warehouse m o)); [|done].
  apply serve_coherent; [done|]. cbn [stores_in_order]. by rewrite Ho.
Qed.

End History.

(** C4, amended: pickPackage and loadPackage never append an event lower
    than an earlier one, and receivePackage starts a history afresh, but
    storePackage appends stored whatever the status of the package is.  So
    the history of every package is in the order received, stored, picked,
    loaded after every run of requests in which each storePackage finds
    its package in status received or stored. *)
Theorem history_in_order_when_stores_are `{JSRuntime} warehouse ops :
  stores_in_order warehouse WMS.new_PackageManager ops = true →
  ∀ id pkg,
    WMS.getPackage id (WMS.serve_all warehouse WMS.new_PackageManager ops)
      = Some pkg →
    nondecreasing (history pkg) = true.
Proof.
  intros Hguard id pkg Hpkg.
  by apply (serve_all_coherent warehouse ops WMS.new_PackageManager
              ltac:(done) Hguard id pkg Hpkg).
Qed.

Lemma history_in_order_when_stores_are_witness :
  history <$> WMS.getPackage Examples.PKG001 Examples.after_lifecycle
    = Some [WMS.Received; WMS.Stored; WMS.Picked; WMS.Loaded]
  ∧ (∃ pkg, WMS.getPackage Examples.PKG001 Examples.after_lifecycle = Some pkg
            ∧ nondecreasing (history pkg) = true).
Proof.
  split; [vm_compute; reflexivity|].
  destruct (WMS.getPackage Examples.PKG001 Examples.after_lifecycle)
    as [pkg|] eqn:Hpkg; [|vm_compute in Hpkg; discriminate Hpkg].
  exists pkg. split; [reflexivity|].
  refine (history_in_order_when_stores_are (H := Examples.runtime)
            Examples.warehouse Examples.lifecycle _ Examples.PKG001 pkg Hpkg).
  vm_compute. reflexivity.
Defined.

(** C4 as stated fails: receive, load, store leaves PKG001 with the
    history received, loaded, stored. *)
Lemma store_after_load_counterexample :
  let m := WMS.serve_all (H := Examples.runtime) Examples.warehouse
             WMS.new_PackageManager
             [WMS.Receive Examples.sample_package;
              WMS.Load Examples.PKG001 (WMS.Str (js "VH001"));
              WMS.Store Examples.PKG001 (WMS.Str (js "A1"))] in
  history <$> WMS.getPackage Examples.PKG001 m
    = Some [WMS.Received; WMS.Loaded; WMS.Stored]
  ∧ nondecreasing [WMS.Received; WMS.Loaded; WMS.Stored] = false.
Proof. split; vm_compute; reflexivity. Qed.

(** ** Requests of the adapter that time out *)

Section Requests.
Context `{JSRuntime}.





End Requests.




(** ** The tests of the repository, replayed on the model *)

(** Test 4, message creation and parsing; the layout of the message is
    type, 0042, the 13 digits of the clock, the JSON text and the checksum
    07 (the character codes of what precedes add up to 4907). *)
Example test_message_creation_and_parsing :
  let message := createMessage (H := Examples.runtime) (Examples.clock 0)
                   PACKAGE_RECEIVED Examples.sample_payload in
  message = js "PKG_RCV" ++ js "0042" ++ js "1757450786892"
            ++ RefJSON.stringify Examples.sample_payload ++ js "07"
  ∧ char_sum (take 66 message) = 4907%N
  ∧ parseMessage (H := Examples.runtime) message
    = Parsed {| type := js "PKG_RCV";
                timestamp := Some 1757450786892;
                payload := Examples.sample_payload;
                raw := message |}.
Proof. repeat split; vm_compute; reflexivity. Qed.

(** Test 9, message integrity: the payload comes back, and the message
    with its checksum overwritten by 99 is rejected. *)
Example test_message_integrity :
  let message := createMessage (H := Examples.runtime) (Examples.clock 0)
                   STATUS_RESPONSE Examples.integrity_payload in
  payload <$> (match parseMessage (H := Examples.runtime) message with
               | Parsed m => Some m
               | Null _ => None
               end) = Some Examples.integrity_payload
  ∧ parseMessage (H := Examples.runtime)
      (take (length message - 2) message ++ js "99")
    = Null InvalidChecksum.
Proof. split; vm_compute; reflexivity. Qed.

(** Test 5, the handler through a whole lifecycle: four events, status
    loaded, the location and the vehicle recorded. *)
Example test_handler_package_tracking :
  (λ pkg, (history pkg, WMS.status pkg, WMS.location pkg,
           WMS.assignedVehicle pkg))
    <$> WMS.getPackage Examples.PKG001 Examples.after_lifecycle
  = Some ([WMS.Received; WMS.Stored; WMS.Picked; WMS.Loaded], WMS.Loaded,
          Some (js "A1"), WMS.Str (js "VH001")).
Proof. vm_compute. reflexivity. Qed.

(** Picking right after the receipt: the text of the error. *)
Example test_pick_before_store :
  WMS.error_message (WMS.NotReady Examples.PKG001 WMS.Received)
  = js ("Package PKG001 is not ready for pickup. " +:+
        "Current status: received. Expected: stored").
Proof. vm_compute. reflexivity. Qed.

(** Test 7, error handling: an unknown status name is refused, an unknown
    package gives null. *)
Example test_error_handling :
  WMS.updateStatus (H := Examples.runtime) 3 (js "invalid_status") None None
    Examples.received_package
  = inl (WMS.InvalidStatus (js "invalid_status"))
  ∧ WMS.updatePackageStatus (H := Examples.runtime) (js "NON_EXISTENT")
      (js "stored") None None WMS.new_PackageManager
    = WMS.Returned None WMS.new_PackageManager.
Proof. split; vm_compute; reflexivity. Qed.

(** * Further properties of the code *)

(** ** The codec *)

(** X1: calculateChecksum always returns exactly two decimal digits, and
    the number they write is the sum of the character codes of the data
    modulo 100. *)
Theorem calculateChecksum_two_digits (data : jsstring) :
  ∃ d1 d2,
    calculateChecksum data = [d1; d2]
    ∧ is_digit d1 ∧ is_digit d2
    ∧ 10 * (Z.of_N d1 - 48) + (Z.of_N d2 - 48)
      = Z.of_N (char_sum data mod 100).
Proof.
  destruct (calculateChecksum_spec data) as (Hlen & Hds & Hval).
  destruct (calculateChecksum data) as [|d1 [|d2 [|? ?]]]; try done.
  exists d1, d2. split; [done|].
  inversion Hds as [|? ? Hd1 Hds']. inversion Hds' as [|? ? Hd2 _].
  split; [done|]. split; [done|].
  rewrite <- Hval. unfold dec_value, dec_step. simpl. lia.
Qed.

Section Acceptance.
Context `{JSRuntime}.

(** What an input that passes the checksum comparison looks like. *)
Lemma parseMessage_passes_checksum (raw : jsstring) :
  (26 ≤ length raw)%nat →
  parseMessage raw ≠ Null InvalidChecksum →
  parseInt (take 4 (drop 7 raw)) = Some (Z.of_nat (length raw) - 26)
  ∧ drop (length raw - 2) raw
    = calculateChecksum (take (length raw - 2) raw)
  ∧ parseMessage raw =
      match JSON_parse (take (length raw - 26) (drop 24 raw)) with
      | Some p => Parsed {| type := take 7 raw;
                            timestamp := parseInt (take 13 (drop 11 raw));
                            payload := p;
                            raw := raw |}
      | None => Null ParseException
      end.
Proof.
  intros Hlen Hok.
  destruct (decide (parseInt (take 4 (drop 7 raw))
                    = Some (Z.of_nat (length raw) - 26))) as [Hint|Hint];
    [|by rewrite parseMessage_bad_length in Hok].
  split; [done|].
  assert (length raw = (26 + (length raw - 26))%nat) as Hlen' by lia.
  assert (parseInt (take 4 (drop 7 raw))
          = Some (Z.of_nat (length raw - 26))) as Hint'
    by (rewrite Hint; f_equal; lia).
  rewrite (parseMessage_known_length raw (length raw - 26) Hlen' Hint') in *.
  replace (24 + (length raw - 26))%nat with (length raw - 2)%nat in * by lia.
  destruct (decide (drop (length raw - 2) raw
                    = calculateChecksum (take (length raw - 2) raw)))
    as [Hck|Hck].
  - split; [done|]. by rewrite bool_decide_false by (by intros ?).
  - by rewrite bool_decide_true in Hok by done.
Qed.

End Acceptance.

(** X2: parseMessage accepts only a string of at least 26 characters
    whose last two characters are the checksum of everything before them,
    whose length field announces exactly the number of characters between
    the header and the checksum, and whose payload text JSON.parse reads;
    the message returned has the first seven characters as type, that
    payload, and the input as raw. *)
Theorem parseMessage_accepts_only_checksummed `{JSRuntime} (raw : jsstring) m :
  parseMessage raw = Parsed m →
  (26 ≤ length raw)%nat
  ∧ parseInt (take 4 (drop 7 raw)) = Some (Z.of_nat (length raw) - 26)
  ∧ drop (length raw - 2) raw
    = calculateChecksum (take (length raw - 2) raw)
  ∧ JSON_parse (take (length raw - 26) (drop 24 raw)) = Some (payload m)
  ∧ type m = take 7 raw
  ∧ timestamp m = parseInt (take 13 (drop 11 raw))
  ∧ Protocol.raw m = raw.
Proof.
  intros Hparsed.
  assert (26 ≤ length raw)%nat as Hlen.
  { unfold parseMessage in Hparsed.
    destruct (Nat.ltb_spec (length raw) 26); [done|lia]. }
  destruct (parseMessage_passes_checksum raw Hlen) as (Hint & Hck & Hres);
    [by rewrite Hparsed|].
  rewrite Hparsed in Hres.
  destruct (JSON_parse _) as [p|]; [|done]. injection Hres as ->.
  done.
Qed.

Lemma parseMessage_accepts_only_checksummed_witness :
  let raw := createMessage (H := Examples.runtime) (Examples.clock 0)
               PACKAGE_RECEIVED Examples.sample_payload in
  (26 ≤ length raw)%nat
  ∧ parseInt (take 4 (drop 7 raw)) = Some (Z.of_nat (length raw) - 26)
  ∧ drop (length raw - 2) raw
    = calculateChecksum (take (length raw - 2) raw)
  ∧ JSON_parse (JSRuntime := Examples.runtime)
      (take (length raw - 26) (drop 24 raw))
    = Some Examples.sample_payload
  ∧ PACKAGE_RECEIVED = take 7 raw
  ∧ Some (Examples.clock 0) = parseInt (take 13 (drop 11 raw))
  ∧ raw = raw.
Proof.
  refine (parseMessage_accepts_only_checksummed (H := Examples.runtime)
            (createMessage (H := Examples.runtime) (Examples.clock 0)
               PACKAGE_RECEIVED Examples.sample_payload)
            {| type := PACKAGE_RECEIVED;
               timestamp := Some (Examples.clock 0);
               payload := Examples.sample_payload;
               raw := createMessage (H := Examples.runtime)
                        (Examples.clock 0) PACKAGE_RECEIVED
                        Examples.sample_payload |} _).
  vm_compute. reflexivity.
Defined.

(** X3: a message of createMessage whose checksum is replaced by any
    other string is never accepted: the checksum comparison fails, unless
    what is left has fewer than 26 characters and is refused as too
    short. *)
Theorem parseMessage_rejects_altered_checksum `{JSRuntime} now t p
    (checksum : jsstring) :
  length t = 7%nat →
  10 ^ 12 ≤ now < 10 ^ 13 →
  Z.of_nat (length (JSON_stringify p)) ≤ 9999 →
  let body := t ++ padStart 4 48
                     (toString (Z.of_nat (length (JSON_stringify p))))
              ++ toString now ++ JSON_stringify p in
  createMessage now t p = body ++ calculateChecksum body
  ∧ (checksum ≠ calculateChecksum body →
     parseMessage (body ++ checksum) =
       if (length (body ++ checksum) <? 26)%nat then Null TooShort
       else Null InvalidChecksum).
Proof.
  intros Ht Hnow Hn body.
  assert (createMessage now t p = body ++ calculateChecksum body) as Hframe.
  { unfold createMessage, body. by rewrite <- !app_assoc. }
  split; [done|]. intros Hne.
  destruct (createMessage_layout now t p Ht (length_toString_13 now Hnow) Hn)
    as (Hlen & _ & HL & _ & _ & Hbody & _).
  fold body in Hbody. rewrite Hframe in Hlen, HL, Hbody.
  assert (length body = (24 + length (JSON_stringify p))%nat) as Hlb.
  { rewrite length_app, calculateChecksum_length in Hlen. lia. }
  assert (take 4 (drop 7 (body ++ checksum)) = take 4 (drop 7 body)) as HL'.
  { rewrite drop_app_le, take_app_le by (rewrite ?length_drop; lia). done. }
  rewrite drop_app_le, take_app_le in HL by (rewrite ?length_drop; lia).
  destruct (Nat.ltb_spec (length (body ++ checksum)) 26) as [Hshort|Hlong].
  - unfold parseMessage.
    by destruct (Nat.ltb_spec (length (body ++ checksum)) 26); [|lia].
  - rewrite length_app in Hlong.
    destruct (decide (length checksum = 2%nat)) as [H2|H2].
    + assert (length (body ++ checksum)
              = (26 + length (JSON_stringify p))%nat) as Hlen'
        by (rewrite length_app; lia).
      assert (parseInt (take 4 (drop 7 (body ++ checksum)))
              = Some (Z.of_nat (length (JSON_stringify p)))) as Hint
        by (rewrite HL', HL; apply parseInt_padStart; lia).
      rewrite (parseMessage_known_length _ _ Hlen' Hint).
      rewrite <- Hlb, drop_app_length, take_app_length.
      by rewrite bool_decide_true.
    + apply parseMessage_bad_length; [rewrite length_app; lia|].
      rewrite HL', HL, parseInt_padStart, length_app by lia.
      intros [= Heq]. lia.
Qed.

Lemma parseMessage_rejects_altered_checksum_witness :
  parseMessage (H := Examples.runtime) (Samples.sample_body ++ js "99")
  = Null InvalidChecksum.
Proof.
  refine (proj2 (parseMessage_rejects_altered_checksum
                   (H := Examples.runtime) (Examples.clock 0)
                   PACKAGE_RECEIVED Examples.sample_payload (js "99") _ _ _)
            _).
  - reflexivity.
  - unfold Examples.clock. lia.
  - vm_compute. discriminate.
  - vm_compute. discriminate.
Defined.

(** X4: a message of createMessage followed by anything at all, be it a
    line feed or the next message, is rejected at the checksum
    comparison: parseMessage never accepts a message with something after
    it. *)
Theorem parseMessage_rejects_extension `{JSRuntime} now t p (more : jsstring) :
  length t = 7%nat →
  10 ^ 12 ≤ now < 10 ^ 13 →
  Z.of_nat (length (JSON_stringify p)) ≤ 9999 →
  more ≠ [] →
  parseMessage (createMessage now t p ++ more) = Null InvalidChecksum.
Proof.
  intros Ht Hnow Hn Hmore.
  destruct (createMessage_layout now t p Ht (length_toString_13 now Hnow) Hn)
    as (Hlen & _ & HL & _).
  assert (0 < length more)%nat by (destruct more; [done|simpl; lia]).
  apply parseMessage_bad_length.
  - rewrite length_app, Hlen. lia.
  - rewrite drop_app_le, take_app_le by (rewrite ?length_drop; lia).
    rewrite HL, parseInt_padStart by lia.
    rewrite length_app, Hlen. intros [= Heq]. lia.
Qed.

Lemma parseMessage_rejects_extension_witness :
  parseMessage (H := Examples.runtime)
    (createMessage (H := Examples.runtime) (Examples.clock 0)
       PACKAGE_RECEIVED Examples.sample_payload
     ++ createMessage (H := Examples.runtime) (Examples.clock 1)
          PACKAGE_STORED Examples.sample_payload)
  = Null InvalidChecksum.
Proof.
  apply (parseMessage_rejects_extension (H := Examples.runtime)).
  - reflexivity.
  - unfold Examples.clock. lia.
  - vm_compute. discriminate.
  - vm_compute. discriminate.
Defined.

(** ** Reads of the protocol object *)

Lemma digits_no_line_feed (s : jsstring) : Forall is_digit s → 10%N ∉ s.
Proof.
  intros Hs Hin. rewrite Forall_forall in Hs.
  destruct (Hs _ Hin). lia.
Qed.

(** The types of the protocol have no line feed and begin with a letter. *)
Lemma MESSAGE_TYPES_plain t :
  t ∈ MESSAGE_TYPES →
  (10%N ∉ t) ∧ (∃ c, head t = Some c ∧ is_whitespace c = false).
Proof.
  unfold MESSAGE_TYPES. rewrite !elem_of_cons, elem_of_nil.
  intros [->|[->|[->|[->|[->|[->|[->|[->|[->|[]]]]]]]]]];
    (split; [by apply (bool_decide_unpack _)|eexists; split; reflexivity]).
Qed.

Section Lines.
Context `{JSRuntime}.

(** A message of [createMessage] is one line without white space around
    it, as long as the JSON text has no line feed. *)
Lemma createMessage_one_line now t p :
  t ∈ MESSAGE_TYPES → 0 ≤ now → 10%N ∉ JSON_stringify p →
  no_outer_space (createMessage now t p) ∧ 10%N ∉ createMessage now t p.
Proof.
  intros Ht Hnow Hjson.
  destruct (MESSAGE_TYPES_plain t Ht) as (Hnl & c & Hhead & Hc).
  set (body := t ++ padStart 4 48
                      (toString (Z.of_nat (length (JSON_stringify p))))
               ++ toString now ++ JSON_stringify p).
  assert (createMessage now t p = body ++ calculateChecksum body) as ->.
  { unfold createMessage, body. by rewrite <- !app_assoc. }
  destruct (calculateChecksum_spec body) as (Hlen & Hds & _).
  split; [split|].
  - exists c. split; [|done]. unfold body. by destruct t.
  - destruct (calculateChecksum body) as [|d1 [|d2 [|? ?]]]; try done.
    exists d2. split.
    { change [d1; d2] with ([d1] ++ [d2]). by rewrite app_assoc, last_snoc. }
    inversion Hds as [|? ? _ Hds']. inversion Hds' as [|? ? Hd2 _].
    by apply digit_not_whitespace.
  - unfold body. rewrite !elem_of_app.
    assert (Forall is_digit (toString (Z.of_nat (length (JSON_stringify p)))))
      as HdL by (rewrite toString_nonneg by lia; apply digits_spec; lia).
    assert (Forall is_digit (toString now)) as Hdts
      by (rewrite toString_nonneg by lia; apply digits_spec; lia).
    intros [[Hin|[Hin|[Hin|Hin]]]|Hin]; try done.
    + exact (digits_no_line_feed _ (padStart_digits 4 _ HdL) Hin).
    + exact (digits_no_line_feed _ Hdts Hin).
    + exact (digits_no_line_feed _ Hds Hin).
Qed.

End Lines.

(** X5: a complete message of createMessage read in one piece, followed
    by any white space (nothing, a line feed, a carriage return and a line
    feed), is answered with ACK_MSG naming its type and then emitted as a
    'message' event with the decoded payload, provided the JSON text has
    no line feed and JSON.parse reads it. *)
Theorem handleClientData_acknowledges_message `{JSRuntime}
    client h now t p p' (space : jsstring) :
  t ∈ MESSAGE_TYPES →
  10 ^ 12 ≤ now < 10 ^ 13 →
  Z.of_nat (length (JSON_stringify p)) ≤ 9999 →
  10%N ∉ JSON_stringify p →
  JSON_parse (JSON_stringify p) = Some p' →
  Forall (λ c, is_whitespace c = true) space →
  handleClientData client (createMessage now t p ++ space) h =
    emit_message client
      {| type := t; timestamp := Some now; payload := p';
         raw := createMessage now t p |}
      (sendToClient client ACK
         (JObj [(js "originalType", JStr t);
                (js "timestamp", JNum (Date_now (ticks h)))])
         (tick h)).
Proof.
  intros Ht Hnow Hn Hjson Hp Hspace.
  destruct (createMessage_one_line now t p Ht ltac:(lia) Hjson) as [Hnos Hnl].
  unfold handleClientData.
  rewrite trim_trailing, split_no_separator by done. cbn [foldl].
  unfold handle_messageStr.
  rewrite parseMessage_createMessage, Hp
    by (first [by apply MESSAGE_TYPES_length|done]).
  destruct Hnos as [(c & Hhead & _) _].
  by destruct (createMessage now t p).
Qed.

Lemma handleClientData_acknowledges_message_witness :
  handleClientData (H := Examples.runtime) 1
    (createMessage (H := Examples.runtime) (Examples.clock 0)
       PACKAGE_RECEIVED Examples.sample_payload ++ [13; 10]%N)
    Examples.one_client =
  emit_message 1
    {| type := PACKAGE_RECEIVED; timestamp := Some (Examples.clock 0);
       payload := Examples.sample_payload;
       raw := createMessage (H := Examples.runtime) (Examples.clock 0)
                PACKAGE_RECEIVED Examples.sample_payload |}
    (sendToClient (H := Examples.runtime) 1 ACK
       (JObj [(js "originalType", JStr PACKAGE_RECEIVED);
              (js "timestamp", JNum (Examples.clock 0))])
       (tick Examples.one_client)).
Proof.
  apply (handleClientData_acknowledges_message (H := Examples.runtime)).
  - by left.
  - unfold Examples.clock. lia.
  - vm_compute. discriminate.
  - by apply (bool_decide_unpack _).
  - vm_compute. reflexivity.
  - by repeat constructor.
Defined.

(** X6: a read that holds nothing but white space (an empty read, a lone
    line feed) is ignored: no reply is written, nothing is emitted and the
    clock is not read. *)
Theorem handleClientData_ignores_blank `{JSRuntime} client (data : jsstring) h :
  Forall (λ c, is_whitespace c = true) data →
  handleClientData client data h = h.
Proof.
  intros Hblank. unfold handleClientData. by rewrite trim_blank.
Qed.

Lemma handleClientData_ignores_blank_witness :
  handleClientData (H := Examples.runtime) 1 [13; 10; 32; 10]%N
    Examples.one_client = Examples.one_client.
Proof.
  apply (handleClientData_ignores_blank (H := Examples.runtime)).
  by repeat constructor.
Defined.

(** X7: two lines in one read are handled one after the other, each as
    if it had been read alone: for texts that begin and end with a
    character that is not white space, reading the first, a line feed and
    the second is reading the first and then the second. *)
Theorem handleClientData_lines_in_order `{JSRuntime}
    client (first second : jsstring) h :
  no_outer_space first → no_outer_space second →
  handleClientData client (first ++ 10%N :: second) h =
    handleClientData client second (handleClientData client first h).
Proof.
  intros Hfirst Hsecond. unfold handleClientData.
  rewrite (trim_no_outer_space first), (trim_no_outer_space second) by done.
  assert (no_outer_space (first ++ 10%N :: second)) as Hboth.
  { destruct Hfirst as [(c & Hhead & Hc) _].
    destruct Hsecond as [_ (c' & Hlast & Hc')]. split.
    - exists c. split; [by destruct first|done].
    - exists c'. split; [|done].
      destruct second as [|x second] using rev_ind; [done|].
      rewrite last_snoc in Hlast.
      change (first ++ 10%N :: second ++ [x])
        with (first ++ (10%N :: second) ++ [x]).
      by rewrite app_assoc, last_snoc. }
  rewrite (trim_no_outer_space _ Hboth), split_app. apply foldl_app.
Qed.

Lemma handleClientData_lines_in_order_witness :
  handleClientData (H := Examples.runtime) 1
    (js "STS_REQ" ++ 10%N :: js "HBT_CHK") Examples.one_client =
  handleClientData (H := Examples.runtime) 1 (js "HBT_CHK")
    (handleClientData (H := Examples.runtime) 1 (js "STS_REQ")
       Examples.one_client).
Proof.
  apply (handleClientData_lines_in_order (H := Examples.runtime)).
  - split; eexists; split; reflexivity.
  - split; eexists; split; reflexivity.
Defined.

(** ** The set of clients *)

Section Clients.
Context `{JSRuntime}.

Lemma filter_agree {A} (P Q : A → Prop)
    `{!∀ x, Decision (P x)} `{!∀ x, Decision (Q x)} (l : list A) :
  (∀ x, x ∈ l → P x ↔ Q x) → filter P l = filter Q l.
Proof.
  induction l as [|a l IH]; intros HPQ; [done|].
  rewrite !filter_cons.
  rewrite IH by (intros x Hx; apply HPQ; by right).
  destruct (decide (P a)) as [HP|HP], (decide (Q a)) as [HQ|HQ]; try done.
  - exfalso. apply HQ, HPQ; [by left|done].
  - exfalso. apply HP, HPQ; [by left|done].
Qed.

Lemma filter_all {A} (P : A → Prop) `{!∀ x, Decision (P x)} (l : list A) :
  (∀ x, x ∈ l → P x) → filter P l = l.
Proof.
  induction l as [|a l IH]; intros HP; [done|].
  rewrite filter_cons, decide_True by (apply HP; by left).
  f_equal. apply IH. intros x Hx. apply HP. by right.
Qed.

Lemma try_write_clients message h c :
  clients (try_write message h c) =
    if decide (c ∈ failing h) then filter (λ c', c' ≠ c) (clients h)
    else clients h.
Proof. unfold try_write, write. by destruct (decide _). Qed.

Lemma try_write_ticks message h c : ticks (try_write message h c) = ticks h.
Proof. unfold try_write, write. by destruct (decide _). Qed.

Lemma foldl_try_write_failing message l :
  ∀ h, failing (foldl (try_write message) h l) = failing h.
Proof.
  induction l as [|c l IH]; intros h; [done|].
  cbn [foldl]. by rewrite IH, try_write_failing.
Qed.

Lemma foldl_try_write_emitted message l :
  ∀ h, emitted (foldl (try_write message) h l) = emitted h.
Proof.
  induction l as [|c l IH]; intros h; [done|].
  cbn [foldl]. by rewrite IH, try_write_emitted.
Qed.

Lemma foldl_try_write_ticks message l :
  ∀ h, ticks (foldl (try_write message) h l) = ticks h.
Proof.
  induction l as [|c l IH]; intros h; [done|].
  cbn [foldl]. by rewrite IH, try_write_ticks.
Qed.

(** Walking a list of sockets removes from the set those of them whose
    write throws, and keeps the others in their order. *)
Lemma foldl_try_write_clients message l :
  ∀ h, clients (foldl (try_write message) h l) =
         filter (λ c, ¬ (c ∈ l ∧ c ∈ failing h)) (clients h).
Proof.
  induction l as [|c0 l IH]; intros h; cbn [foldl].
  - symmetry. apply filter_all. intros c _ [Hin _].
    by apply elem_of_nil in Hin.
  - rewrite IH, try_write_failing, try_write_clients.
    destruct (decide (c0 ∈ failing h)) as [Hf|Hf].
    + rewrite list_filter_filter. apply filter_agree. intros c _. split.
      * intros [Hl Hne] [Hin Hc]. apply elem_of_cons in Hin as [?|?];
          [done|by apply Hl].
      * intros Hno. split.
        -- intros [Hin Hc]. apply Hno. split; [by right|done].
        -- intros ->. apply Hno. split; [by left|done].
    + apply filter_agree. intros c _. split.
      * intros Hl [Hin Hc]. apply elem_of_cons in Hin as [->|?];
          [done|by apply Hl].
      * intros Hno [Hin Hc]. apply Hno. split; [by right|done].
Qed.

End Clients.

(** X8: broadcast removes from the set of clients exactly those whose
    write throws and keeps the others in their order; it reads the clock
    once and emits nothing.  After one broadcast a second one removes
    nobody. *)
Theorem broadcast_drops_failing_clients `{JSRuntime} type payload h :
  clients (broadcast type payload h) = filter (λ c, c ∉ failing h) (clients h)
  ∧ failing (broadcast type payload h) = failing h
  ∧ emitted (broadcast type payload h) = emitted h
  ∧ ticks (broadcast type payload h) = S (ticks h)
  ∧ ∀ type' payload',
      clients (broadcast type' payload' (broadcast type payload h))
      = clients (broadcast type payload h).
Proof.
  assert (∀ type payload h,
    clients (broadcast type payload h)
    = filter (λ c, c ∉ failing h) (clients h)) as Hclients.
  { intros t p h0. unfold broadcast.
    rewrite foldl_try_write_clients. cbn [tick clients failing].
    apply filter_agree. intros c Hc. split.
    - intros Hno Hf. by apply Hno.
    - intros Hno [_ Hf]. by apply Hno. }
  assert (∀ type payload h,
    failing (broadcast type payload h) = failing h) as Hfailing.
  { intros t p h0. unfold broadcast. by rewrite foldl_try_write_failing. }
  split; [apply Hclients|]. split; [apply Hfailing|].
  split; [unfold broadcast; by rewrite foldl_try_write_emitted|].
  split; [unfold broadcast; by rewrite foldl_try_write_ticks|].
  intros type' payload'. rewrite (Hclients type' payload'), Hfailing.
  apply filter_all. intros c Hc. rewrite Hclients in Hc.
  by apply list_elem_of_filter in Hc as [? _].
Qed.

(** X9: addClient leaves the client in the set exactly when the write of
    the welcome message does not throw, keeps the set free of duplicates,
    changes the membership of no other client, and writes to the client
    one STS_RSP line (status connected, the server time read first, the
    protocol version) and to no other socket. *)
Theorem addClient_joins_unless_write_throws `{JSRuntime} client h :
  NoDup (clients h) →
  NoDup (clients (Server.addClient client h))
  ∧ (client ∈ clients (Server.addClient client h) ↔ client ∉ failing h)
  ∧ (∀ c, c ≠ client →
       (c ∈ clients (Server.addClient client h) ↔ c ∈ clients h)
       ∧ written (Server.addClient client h) !!! c = written h !!! c)
  ∧ written (Server.addClient client h) !!! client =
      (if decide (client ∈ failing h) then written h !!! client
       else written h !!! client ++
         [createMessage (Date_now (S (ticks h))) STATUS_RESPONSE
            (JObj [(js "status", JStr (js "connected"));
                   (js "serverTime", JNum (Date_now (ticks h)));
                   (js "protocolVersion", JStr (js "1.0"))])
          ++ [10%N]]).
Proof.
  intros Hnd. unfold Server.addClient, sendToClient.
  set (h1 := Server.add_client client h).
  assert (ticks h1 = ticks h ∧ failing h1 = failing h
          ∧ written h1 = written h) as (Ht & Hf & Hw).
  { unfold h1, Server.add_client. by destruct (decide _). }
  assert (NoDup (clients h1)) as Hnd1.
  { unfold h1, Server.add_client. destruct (decide _) as [Hin|Hin]; [done|].
    cbn [clients]. apply NoDup_app. split; [done|]. split.
    - intros c Hc Hc'. apply list_elem_of_singleton in Hc'. by subst c.
    - apply NoDup_singleton. }
  assert (∀ c, c ∈ clients h1 ↔ c ∈ clients h ∨ c = client) as Hin1.
  { intros c. unfold h1, Server.add_client.
    destruct (decide _) as [Hin|Hin].
    - split; [by left|]. by intros [?| ->].
    - cbn [clients]. by rewrite elem_of_app, list_elem_of_singleton. }
  clearbody h1. cbn [tick ticks]. rewrite !Ht.
  set (message := createMessage _ _ _).
  split; [|split; [|split]].
  - rewrite try_write_clients. destruct (decide _); [|done].
    by apply NoDup_filter.
  - rewrite try_write_clients. cbn [tick failing clients]. rewrite Hf.
    destruct (decide (client ∈ failing h)) as [Hc|Hc].
    + rewrite list_elem_of_filter. split; [by intros [? _]|done].
    + rewrite Hin1. split; [done|by right].
  - intros c Hne. split.
    + rewrite try_write_clients. cbn [tick failing clients].
      destruct (decide _).
      * rewrite list_elem_of_filter, Hin1. split; [by intros [_ [?|?]]|].
        intros Hc. split; [done|by left].
      * rewrite Hin1. split; [by intros [?|?]|by left].
    + rewrite try_write_written. cbn [tick failing written]. rewrite Hw.
      destruct (decide _) as [[? _]|_]; done.
  - rewrite try_write_written. cbn [tick failing written]. rewrite Hf, Hw.
    destruct (decide (client ∈ failing h)) as [Hc|Hc].
    + by rewrite decide_False by (by intros [_ ?]).
    + by rewrite decide_True by (by split).
Qed.

Lemma addClient_joins_unless_write_throws_witness :
  NoDup (clients Examples.one_client)
  ∧ (2%nat ∈ clients (Server.addClient (H := Examples.runtime) 2
                        Examples.one_client)
     ↔ 2%nat ∉ failing Examples.one_client).
Proof.
  assert (NoDup (clients Examples.one_client)) as Hnd
    by (apply NoDup_singleton).
  split; [done|].
  exact (proj1 (proj2
    (addClient_joins_unless_write_throws (H := Examples.runtime) 2
       Examples.one_client Hnd))).
Defined.

(** X10: one firing of the heartbeat timer does nothing while no client
    is connected; otherwise every connected client whose write does not
    throw is sent one HBT_CHK line whose activeClients is the size of the
    set when the timer fired, clients about to be removed included. *)
Theorem heartbeat_counts_clients `{JSRuntime} h :
  NoDup (clients h) →
  (clients h = [] → Server.heartbeat h = h)
  ∧ ∀ c, c ∈ clients h → c ∉ failing h →
      written (Server.heartbeat h) !!! c =
        written h !!! c ++
          [createMessage (Date_now (S (ticks h))) HEARTBEAT
             (JObj [(js "timestamp", JNum (Date_now (ticks h)));
                    (js "activeClients",
                     JNum (Z.of_nat (length (clients h))))])
           ++ [10%N]].
Proof.
  intros Hnd. split.
  - intros Hnone. unfold Server.heartbeat. by rewrite Hnone.
  - intros c Hc Hf. unfold Server.heartbeat.
    destruct (clients h) as [|c0 l] eqn:Hcl; [by apply elem_of_nil in Hc|].
    cbn [length Nat.ltb Nat.leb]. unfold broadcast.
    cbn [tick clients ticks]. rewrite Hcl.
    rewrite foldl_try_write_written by done.
    by rewrite decide_True.
Qed.

Lemma heartbeat_counts_clients_witness :
  NoDup (clients Examples.three_clients)
  ∧ written (Server.heartbeat (H := Examples.runtime) Examples.three_clients)
      !!! 3%nat =
    written Examples.three_clients !!! 3%nat ++
      [createMessage (H := Examples.runtime) (Examples.clock 1) HEARTBEAT
         (JObj [(js "timestamp", JNum (Examples.clock 0));
                (js "activeClients", JNum 3)])
       ++ [10%N]].
Proof.
  assert (NoDup (clients Examples.three_clients)) as Hnd.
  { apply (bool_decide_unpack _). by vm_compute. }
  split; [done|].
  apply (proj2 (heartbeat_counts_clients (H := Examples.runtime)
                  Examples.three_clients Hnd) 3%nat).
  - apply (bool_decide_unpack _). by vm_compute.
  - apply (bool_decide_unpack _). by vm_compute.
Defined.

(** ** Requests served by the handler *)

Section Served.
Context `{JSRuntime}.
Variable warehouse : jsstring.

(** What one request does: nothing, or one package is put under the id
    the request names and one event is emitted with it. *)
Lemma serve_step m o :
  WMS.serve warehouse m o = m
  ∨ ∃ pkg,
      WMS.packages (WMS.serve warehouse m o)
        = <[target o := pkg]> (WMS.packages m)
      ∧ WMS.emitted (WMS.serve warehouse m o)
        = WMS.emitted m ++ [(event_kind o, pkg)]
      ∧ WMS.status pkg = status_after o
      ∧ match o with
        | WMS.Receive _ =>
            WMS.packageId pkg = target o ∧ history pkg = [WMS.Received]
            ∧ WMS.assignedVehicle pkg = WMS.null
        | _ =>
            ∃ old, WMS.getPackage (target o) m = Some old
                   ∧ WMS.packageId pkg = WMS.packageId old
                   ∧ history pkg = history old ++ [status_after o]
                   ∧ (WMS.assignedVehicle pkg = WMS.assignedVehicle old
                      ∨ status_after o = WMS.Loaded)
        end.
Proof.
  destruct o as [d|id loc|id|id v]; cbn [WMS.serve target event_kind].
  - unfold WMS.receivePackage. destruct (_ || _); [by left|right].
    eexists. cbn [WMS.addPackage WMS.state_of WMS.emitEvent WMS.packages
                  WMS.emitted].
    by repeat split.
  - unfold WMS.storePackage, WMS.updatePackageStatus.
    destruct (WMS.getPackage id m) as [old|] eqn:Hold; [right|by left].
    unfold WMS.updateStatus.
    change (js "stored") with (WMS.status_name WMS.Stored).
    rewrite valid_status_name. eexists.
    cbn [WMS.state_of WMS.emitEvent WMS.packages WMS.emitted].
    split; [done|]. split; [done|]. split; [done|].
    exists old. split; [done|]. split; [done|].
    split; [unfold history; cbn; by rewrite fmap_app|].
    first [by left|by right].
  - unfold WMS.pickPackage, WMS.updatePackageStatus.
    destruct (WMS.getPackage id m) as [old|] eqn:Hold; [|by left].
    destruct (bool_decide _); [by left|right].
    unfold WMS.updateStatus.
    change (js "picked") with (WMS.status_name WMS.Picked).
    rewrite valid_status_name. eexists.
    cbn [WMS.state_of WMS.emitEvent WMS.packages WMS.emitted].
    split; [done|]. split; [done|]. split; [done|].
    exists old. split; [done|]. split; [done|].
    split; [unfold history; cbn; by rewrite fmap_app|].
    first [by left|by right].
  - unfold WMS.loadPackage, WMS.assignPackageToVehicle.
    destruct (WMS.getPackage id m) as [old|] eqn:Hold; [right|by left].
    unfold WMS.assignToVehicle, WMS.updateStatus.
    change (js "loaded") with (WMS.status_name WMS.Loaded).
    rewrite valid_status_name. eexists.
    cbn [WMS.state_of WMS.emitEvent WMS.packages WMS.emitted].
    split; [done|]. split; [done|]. split; [done|].
    exists old. split; [done|]. split; [done|].
    split; [unfold history; cbn; by rewrite fmap_app|].
    first [by left|by right].
Qed.

Lemma serve_well_kept m o :
  well_kept m → well_kept (WMS.serve warehouse m o).
Proof.
  intros Hm.
  destruct (serve_step m o) as [->|(pkg & Hpk & _ & Hst & Hpkg)]; [done|].
  intros id pkg'. unfold WMS.getPackage. rewrite Hpk.
  destruct (decide (target o = id)) as [Heq|Hne].
  - rewrite Heq, lookup_insert_eq. intros [= <-]. rewrite Hst.
    destruct o as [d|id0 loc|id0|id0 v];
      [destruct Hpkg as (Hid & Hh & _); rewrite Hh; by rewrite <- Heq|..];
      destruct Hpkg as (old & Hold & Hid & Hh & _);
      destruct (Hm _ _ Hold) as (Hkey & Hhead & _);
      rewrite Hh, last_snoc;
      (split; [by rewrite Hid, Hkey, <- Heq|]);
      (split; [|done]);
      by destruct (history old).
  - rewrite lookup_insert_ne by done. apply Hm.
Qed.

Lemma serve_all_well_kept ops :
  ∀ m, well_kept m → well_kept (WMS.serve_all warehouse m ops).
Proof.
  induction ops as [|o ops IH]; intros m Hm; [done|].
  apply (IH (WMS.serve warehouse m o)). by apply serve_well_kept.
Qed.

Lemma new_PackageManager_well_kept : well_kept WMS.new_PackageManager.
Proof.
  intros id pkg Hget. unfold WMS.getPackage in Hget. cbn in Hget.
  by rewrite lookup_empty in Hget.
Qed.

(** The kind of an emitted event tells the status of its package. *)
Lemma serve_all_event_kinds ops :
  ∀ m,
    (∀ e, e ∈ WMS.emitted m →
          ∃ o, e.1 = event_kind o ∧ WMS.status e.2 = status_after o) →
    ∀ e, e ∈ WMS.emitted (WMS.serve_all warehouse m ops) →
         ∃ o, e.1 = event_kind o ∧ WMS.status e.2 = status_after o.
Proof.
  induction ops as [|o ops IH]; intros m Hm; [done|].
  apply (IH (WMS.serve warehouse m o)).
  destruct (serve_step m o) as [->|(pkg & _ & Hem & Hst & _)]; [done|].
  intros e. rewrite Hem, elem_of_app, list_elem_of_singleton.
  intros [He| ->]; [by apply Hm|]. by exists o.
Qed.

End Served.

(** X11: whatever requests the handler has served, starting with no
    package, every package sits under its own id and its history begins
    with received and ends with its current status. *)
Theorem served_packages_are_well_kept `{JSRuntime} warehouse ops :
  well_kept (WMS.serve_all warehouse WMS.new_PackageManager ops).
Proof.
  apply serve_all_well_kept, new_PackageManager_well_kept.
Qed.

(** X12: a request either changes nothing at all (this is what a throw
    leaves behind), or it puts one package under the id it names, in the
    status the request stands for, emits exactly one event, of the kind of
    the request and carrying this very package, and leaves every other
    package as it was. *)
Theorem serve_emits_what_it_stores `{JSRuntime} warehouse m o :
  WMS.serve warehouse m o = m
  ∨ ∃ pkg,
      WMS.getPackage (target o) (WMS.serve warehouse m o) = Some pkg
      ∧ WMS.status pkg = status_after o
      ∧ WMS.emitted (WMS.serve warehouse m o)
        = WMS.emitted m ++ [(event_kind o, pkg)]
      ∧ ∀ id, id ≠ target o →
          WMS.getPackage id (WMS.serve warehouse m o) = WMS.getPackage id m.
Proof.
  destruct (serve_step warehouse m o) as [->|(pkg & Hpk & Hem & Hst & _)];
    [by left|right].
  exists pkg. unfold WMS.getPackage. rewrite Hpk.
  split; [by rewrite lookup_insert_eq|]. split; [done|]. split; [done|].
  intros id Hne. by rewrite lookup_insert_ne.
Qed.

(** X13: with a TCP server attached, every event the package manager
    emits while the handler serves requests is broadcast with the message
    type of the status its package then has (PKG_RCV, PKG_STR, PKG_PCK or
    PKG_LDD): each client whose write does not throw receives one line
    with that type and with the id, status and location of the package,
    its vehicle unless that is undefined, and the time read first. *)
Theorem served_event_is_broadcast_with_its_status `{JSRuntime}
    warehouse ops e h c :
  e ∈ WMS.emitted (WMS.serve_all warehouse WMS.new_PackageManager ops) →
  NoDup (clients h) → c ∈ clients h → c ∉ failing h →
  written (Server.on_package_event e h) !!! c =
    written h !!! c ++
      [createMessage (Date_now (S (ticks h)))
         (Server.messageTypeMap (WMS.status e.2))
         (Server.update_payload e.2 (Date_now (ticks h))) ++ [10%N]].
Proof.
  intros He Hnd Hc Hf.
  apply serve_all_event_kinds in He as (o & Hkind & Hst);
    [|by intros e' He'; apply elem_of_nil in He'].
  assert (Server.on_package_event e h
          = Server.broadcastPackageUpdate (WMS.status e.2) e.2 h) as ->.
  { unfold Server.on_package_event. rewrite Hkind, Hst.
    destruct o; cbn [event_kind status_after];
      repeat (destruct (decide _) as [Heq|Hne];
              [try done; by vm_compute in Heq|try done]). }
  unfold Server.broadcastPackageUpdate, broadcast. cbn [tick clients ticks].
  rewrite foldl_try_write_written by done.
  by rewrite decide_True by (by split).
Qed.

Lemma served_event_is_broadcast_with_its_status_witness :
  written (Server.on_package_event (H := Examples.runtime)
             (js "package_received", Examples.received_package)
             Examples.one_client) !!! 1%nat =
    written Examples.one_client !!! 1%nat ++
      [createMessage (H := Examples.runtime) (Examples.clock 1)
         PACKAGE_RECEIVED
         (Server.update_payload Examples.received_package (Examples.clock 0))
       ++ [10%N]].
Proof.
  apply (served_event_is_broadcast_with_its_status (H := Examples.runtime)
           Examples.warehouse [WMS.Receive Examples.sample_package]
           (js "package_received", Examples.received_package)
           Examples.one_client 1%nat).
  - vm_compute. left.
  - apply NoDup_singleton.
  - by left.
  - apply (bool_decide_unpack _). by vm_compute.
Defined.

(** X14: after any requests, trackPackage changes nothing.  For an id
    the manager does not hold it throws not found.  For a package it
    holds, it returns the id asked for, the warehouse, the status,
    location and vehicle of the package, and as history the events of the
    package, each with that id added: the first entry is the receipt and
    the status reported is the one of the last entry. *)
Theorem trackPackage_reports_last_event `{JSRuntime} warehouse ops id :
  let m := WMS.serve_all warehouse WMS.new_PackageManager ops in
  match WMS.getPackage id m with
  | None =>
      Queries.trackPackage warehouse id m = WMS.Thrown (WMS.NotFound id)
  | Some pkg =>
      ∃ t,
        Queries.trackPackage warehouse id m = WMS.Returned t m
        ∧ Queries.tr_packageId t = id
        ∧ Queries.tr_warehouse t = warehouse
        ∧ Queries.si_packageId (Queries.tr_currentStatus t) = id
        ∧ Queries.si_status (Queries.tr_currentStatus t)
          = WMS.status_name (WMS.status pkg)
        ∧ Queries.si_location (Queries.tr_currentStatus t) = WMS.location pkg
        ∧ Queries.si_assignedVehicle (Queries.tr_currentStatus t)
          = WMS.assignedVehicle pkg
        ∧ Queries.si_updatedAt (Queries.tr_currentStatus t)
          = WMS.updatedAt pkg
        ∧ Queries.tr_history t = (λ event, (event, id)) <$> WMS.events pkg
        ∧ (λ x, WMS.eventType x.1) <$> head (Queries.tr_history t)
          = Some WMS.Received
        ∧ (λ x, WMS.status_name (WMS.eventType x.1))
            <$> last (Queries.tr_history t)
          = Some (Queries.si_status (Queries.tr_currentStatus t))
  end.
Proof.
  intros m. unfold Queries.trackPackage.
  destruct (WMS.getPackage id m) as [pkg|] eqn:Hget; [|done].
  destruct (serve_all_well_kept warehouse ops _
              new_PackageManager_well_kept id pkg Hget)
    as (Hid & Hhead & Hlast).
  eexists. split; [reflexivity|].
  cbn. unfold Queries.getHistory. rewrite Hid.
  repeat (split; [done|]). split.
  - unfold history in Hhead. by destruct (WMS.events pkg).
  - unfold history in Hlast. rewrite fmap_last in Hlast. rewrite fmap_last.
    destruct (last (WMS.events pkg)); [|done]. cbn in *. congruence.
Qed.

(** X15: handleOrderFulfillment never fails because of the package.  It
    leaves the packages and the emitted events exactly as a pick request
    for the package named in the order would, when one is named, and
    untouched otherwise: a stored package is picked, any other is left
    alone without an error.  With items it then reports their number;
    without items it fails after the picking has been done. *)
Theorem handleOrderFulfillment_picks_like_a_request `{JSRuntime}
    warehouse d m :
  let after := manager_after (Queries.handleOrderFulfillment warehouse d m) m in
  let picked :=
    if WMS.truthy (Queries.od_packageId d)
    then WMS.serve warehouse m
           (WMS.Pick (default [] (Queries.od_packageId d)))
    else m in
  (∀ e, Queries.handleOrderFulfillment warehouse d m ≠ Queries.PickThrew e)
  ∧ WMS.packages after = WMS.packages picked
  ∧ WMS.emitted after = WMS.emitted picked
  ∧ match Queries.od_items d with
    | Some items =>
        ∃ r, Queries.handleOrderFulfillment warehouse d m
             = Queries.Fulfilled r after
             ∧ Queries.ff_status r = js "fulfilled"
             ∧ Queries.ff_itemsProcessed r = length items
             ∧ Queries.ff_orderId r = Queries.od_orderId d
             ∧ Queries.ff_packageId r = Queries.od_packageId d
    | None =>
        Queries.handleOrderFulfillment warehouse d m
        = Queries.ItemsMissing after
    end.
Proof.
  unfold Queries.handleOrderFulfillment. cbn [WMS.serve].
  destruct (WMS.truthy (Queries.od_packageId d)).
  - unfold WMS.pickPackage.
    destruct (WMS.getPackage _ m) as [pkg|] eqn:Hget.
    + destruct (decide (WMS.status pkg = WMS.Stored)) as [Hst|Hst].
      * rewrite bool_decide_true, bool_decide_false by (by try intros ?).
        unfold WMS.updatePackageStatus, WMS.updateStatus. rewrite Hget.
        change (js "picked") with (WMS.status_name WMS.Picked).
        rewrite valid_status_name.
        destruct (Queries.od_items d); cbn; [|done]. split; [done|].
        split; [done|]. split; [done|]. by eexists.
      * rewrite bool_decide_false, bool_decide_true by done.
        destruct (Queries.od_items d); cbn; [|done]. split; [done|].
        split; [done|]. split; [done|]. by eexists.
    + destruct (Queries.od_items d); cbn; [|done]. split; [done|].
      split; [done|]. split; [done|]. by eexists.
  - destruct (Queries.od_items d); cbn; [|done]. split; [done|].
    split; [done|]. split; [done|]. by eexists.
Qed.

Section Counting.

Lemma status_name_inj st st' :
  WMS.status_name st = WMS.status_name st' ↔ st = st'.
Proof.
  split; [|by intros ->].
  destruct st, st'; intros Heq; try done; by vm_compute in Heq.
Qed.

Lemma foldl_count_status (l : list WMS.Package) :
  ∀ f st,
    foldl Queries.count_status f l st =
      if decide (count_in st l = 0%nat) then f st
      else Some (default 0%nat (f st) + count_in st l)%nat.
Proof.
  unfold count_in.
  induction l as [|pkg l IH]; intros f st; [done|].
  cbn [foldl]. rewrite IH, filter_cons. unfold Queries.count_status.
  destruct (decide (WMS.status pkg = st)) as [Heq|Hne].
  - subst st. destruct (decide (WMS.status pkg = WMS.status pkg)); [|done].
    cbn [length default].
    destruct (decide (length _ = 0%nat)) as [->|Hn];
      destruct (decide (S _ = 0%nat)); try done; f_equal;
      cbn [from_option id]; lia.
  - by destruct (decide (st = WMS.status pkg)).
Qed.

Lemma count_in_total (l : list WMS.Package) :
  (count_in WMS.Received l + count_in WMS.Stored l
   + count_in WMS.Picked l + count_in WMS.Loaded l = length l)%nat.
Proof.
  unfold count_in. induction l as [|pkg l IH]; [done|].
  rewrite !filter_cons.
  destruct (WMS.status pkg);
    repeat (destruct (decide _) as [?|?]; try done); cbn [length]; lia.
Qed.

End Counting.

(** X16: the statistics count every package once: totalPackages is the
    size of the map, statusBreakdown holds for each status the number of
    packages in it and has no entry for a status no package is in, its
    four counts add up to totalPackages, readyForPickup and loaded are the
    counts for stored and loaded; the packages and events stay as they
    are. *)
Theorem getStatistics_counts_each_package_once `{JSRuntime} m :
  let s := (Queries.getStatistics m).1 in
  let all := Queries.getAllPackages m in
  Queries.totalPackages s = size (WMS.packages m)
  ∧ (∀ st, Queries.statusBreakdown s st =
             if decide (count_in st all = 0%nat) then None
             else Some (count_in st all))
  ∧ (count_in WMS.Received all + count_in WMS.Stored all
     + count_in WMS.Picked all + count_in WMS.Loaded all
     = Queries.totalPackages s)%nat
  ∧ Queries.readyForPickup s = count_in WMS.Stored all
  ∧ Queries.loaded s = count_in WMS.Loaded all
  ∧ WMS.packages (Queries.getStatistics m).2 = WMS.packages m
  ∧ WMS.emitted (Queries.getStatistics m).2 = WMS.emitted m.
Proof.
  cbv zeta. unfold Queries.getStatistics.
  cbn [fst snd Queries.totalPackages Queries.statusBreakdown
       Queries.readyForPickup Queries.loaded WMS.packages WMS.emitted].
  split; [|split; [|split; [|split; [|split]]]]; try done.
  - unfold Queries.getAllPackages.
    by rewrite length_fmap, length_map_to_list.
  - intros st. by rewrite foldl_count_status.
  - apply count_in_total.
  - unfold Queries.getPackagesByStatus, count_in. f_equal.
    apply filter_agree. intros pkg _.
    change (js "stored") with (WMS.status_name WMS.Stored).
    apply status_name_inj.
  - unfold Queries.getPackagesByStatus, count_in. f_equal.
    apply filter_agree. intros pkg _.
    change (js "loaded") with (WMS.status_name WMS.Loaded).
    apply status_name_inj.
Qed.

(** X17: storePackage asks nothing of the status of the package.  For
    an unknown id it throws not found; for a known one, whatever its
    status, it returns a storage record echoing the location it was given,
    the package becomes stored, takes the location only if a non-empty
    string was given (it keeps its own otherwise), keeps its vehicle, and
    gains one event stored, at its location, whose description is Package
    stored at followed by the location as a template literal prints it
    (null and undefined by name). *)
Theorem storePackage_from_any_status `{JSRuntime} warehouse id loc m :
  match WMS.getPackage id m with
  | None => WMS.storePackage warehouse id loc m = WMS.Thrown (WMS.NotFound id)
  | Some pkg =>
      ∃ r m' pkg' ev,
        WMS.storePackage warehouse id loc m = WMS.Returned r m'
        ∧ WMS.st_status r = js "stored"
        ∧ WMS.st_location r = loc
        ∧ WMS.getPackage id m' = Some pkg'
        ∧ WMS.status pkg' = WMS.Stored
        ∧ WMS.location pkg' =
            (match loc with
             | WMS.Str (c :: l) => Some (c :: l)
             | _ => WMS.location pkg
             end)
        ∧ WMS.assignedVehicle pkg' = WMS.assignedVehicle pkg
        ∧ WMS.events pkg' = WMS.events pkg ++ [ev]
        ∧ WMS.eventType ev = WMS.Stored
        ∧ WMS.ev_location ev = WMS.location pkg'
        ∧ WMS.description ev
          = js "Package stored at " ++ WMS.interpolate loc
  end.
Proof.
  unfold WMS.storePackage, WMS.updatePackageStatus.
  destruct (WMS.getPackage id m) as [pkg|] eqn:Hget; [|done].
  unfold WMS.updateStatus.
  change (js "stored") with (WMS.status_name WMS.Stored).
  rewrite valid_status_name.
  eexists _, _, _, _. split; [reflexivity|].
  unfold WMS.getPackage. cbn.
  split; [done|]. split; [done|]. split; [by rewrite lookup_insert_eq|].
  split; [done|]. split; [by destruct loc as [[|c l]| |]|].
  by repeat split.
Qed.

(** ** Vehicles *)

Section Vehicles.
Context `{JSRuntime}.
Variable warehouse : jsstring.

Lemma serve_all_vehicle ops :
  ∀ m,
    (∀ id pkg, WMS.getPackage id m = Some pkg →
               WMS.assignedVehicle pkg ≠ WMS.null →
               WMS.Loaded ∈ history pkg) →
    ∀ id pkg, WMS.getPackage id (WMS.serve_all warehouse m ops) = Some pkg →
              WMS.assignedVehicle pkg ≠ WMS.null →
              WMS.Loaded ∈ history pkg.
Proof.
  induction ops as [|o ops IH]; intros m Hm; [done|].
  apply (IH (WMS.serve warehouse m o)).
  destruct (serve_step warehouse m o)
    as [->|(pkg & Hpk & _ & Hst & Hpkg)]; [done|].
  intros id pkg'. unfold WMS.getPackage. rewrite Hpk.
  destruct (decide (target o = id)) as [Heq|Hne].
  - rewrite Heq, lookup_insert_eq. intros [= <-] Hv.
    destruct o as [d|id0 loc|id0|id0 v];
      [by destruct Hpkg as (_ & _ & Hnone)|..];
      destruct Hpkg as (old & Hold & _ & Hh & [Hsame|Hl]);
      rewrite Hh, elem_of_app, list_elem_of_singleton;
      first [by right
            |left; apply (Hm _ _ Hold); by rewrite <- Hsame].
  - rewrite lookup_insert_ne by done. apply Hm.
Qed.

End Vehicles.

(** X18: after any requests, a package whose assignedVehicle is not
    null (a vehicle, or undefined after a load without one) has been
    loaded at some time (its history holds a loaded event), a package for
    which isLoaded holds has loaded as its last event, and one for which
    isReadyForPickup holds has stored as its last event. *)
Theorem vehicle_only_after_loading `{JSRuntime} warehouse ops id pkg :
  WMS.getPackage id (WMS.serve_all warehouse WMS.new_PackageManager ops)
    = Some pkg →
  (WMS.assignedVehicle pkg ≠ WMS.null → WMS.Loaded ∈ history pkg)
  ∧ (Queries.isLoaded pkg = true → last (history pkg) = Some WMS.Loaded)
  ∧ (Queries.isReadyForPickup pkg = true →
     last (history pkg) = Some WMS.Stored).
Proof.
  intros Hget.
  destruct (serve_all_well_kept warehouse ops _
              new_PackageManager_well_kept id pkg Hget) as (_ & _ & Hlast).
  split; [|split].
  - refine (serve_all_vehicle warehouse ops WMS.new_PackageManager _
              id pkg Hget).
    intros id' pkg' Hnone. unfold WMS.getPackage in Hnone. cbn in Hnone.
    by rewrite lookup_empty in Hnone.
  - unfold Queries.isLoaded. intros Hl%bool_decide_eq_true. by rewrite <- Hl.
  - unfold Queries.isReadyForPickup. intros Hl%bool_decide_eq_true.
    by rewrite <- Hl.
Qed.

Lemma vehicle_only_after_loading_witness :
  WMS.getPackage Examples.PKG001 Examples.after_lifecycle
    = Some (default Examples.received_package
              (WMS.getPackage Examples.PKG001 Examples.after_lifecycle))
  ∧ (Queries.isLoaded
       (default Examples.received_package
          (WMS.getPackage Examples.PKG001 Examples.after_lifecycle)) = true →
     last (history
             (default Examples.received_package
                (WMS.getPackage Examples.PKG001 Examples.after_lifecycle)))
     = Some WMS.Loaded).
Proof.
  assert (WMS.getPackage Examples.PKG001 Examples.after_lifecycle
          = Some (default Examples.received_package
                    (WMS.getPackage Examples.PKG001 Examples.after_lifecycle)))
    as Hget by (vm_compute; reflexivity).
  split; [exact Hget|].
  exact (proj1 (proj2
    (vehicle_only_after_loading (H := Examples.runtime) Examples.warehouse
       Examples.lifecycle Examples.PKG001 _ Hget))).
Defined.

(** ** Responses of the adapter *)

(** X19: a status response for a pending request is delivered once.
    handleStatusResponse moves the request from the pending ones to the
    stored responses; the next checkResponse of its waiter resolves with
    the payload without reading the clock, so also after the deadline,
    and takes the response out again; later runs of checkResponse do
    nothing. *)
Theorem response_is_delivered_once `{JSRuntime} msg w a :
  Adapter.requestId_of (payload msg)
    = Some (Some (JStr (Adapter.requestId w))) →
  is_Some (Adapter.pendingRequests a !! Adapter.requestId w) →
  Adapter.result w = None →
  ∃ a1,
    Adapter.handleStatusResponse msg a = Some a1
    ∧ Adapter.pendingRequests a1 !! Adapter.requestId w = None
    ∧ Adapter.tcpResponses a1 !! Adapter.requestId w = Some (payload msg)
    ∧ Adapter.result (Adapter.checkResponse w a1).1
      = Some (Adapter.Resolved (payload msg))
    ∧ Adapter.pendingRequests (Adapter.checkResponse w a1).2
        !! Adapter.requestId w = None
    ∧ Adapter.tcpResponses (Adapter.checkResponse w a1).2
        !! Adapter.requestId w = None
    ∧ Adapter.ticks (Adapter.checkResponse w a1).2 = Adapter.ticks a
    ∧ Adapter.checkResponse (Adapter.checkResponse w a1).1
        (Adapter.checkResponse w a1).2
      = Adapter.checkResponse w a1.
Proof.
  intros Hid Hpending Hres. unfold Adapter.handleStatusResponse.
  rewrite Hid, bool_decide_true by done. eexists. split; [reflexivity|].
  unfold Adapter.checkResponse. rewrite Hres.
  cbn [Adapter.pendingRequests Adapter.tcpResponses].
  rewrite lookup_insert_eq. cbn.
  by rewrite !lookup_delete_eq.
Qed.

Lemma response_is_delivered_once_witness :
  ∃ a1,
    Adapter.handleStatusResponse Samples.sample_response
      Examples.overdue_adapter = Some a1
    ∧ Adapter.result (Adapter.checkResponse (H := Examples.runtime)
                        Examples.overdue_waiter a1).1
      = Some (Adapter.Resolved (payload Samples.sample_response)).
Proof.
  destruct (response_is_delivered_once (H := Examples.runtime)
              Samples.sample_response Examples.overdue_waiter
              Examples.overdue_adapter)
    as (a1 & Hh & _ & _ & Hr & _).
  - vm_compute. reflexivity.
  - exists (Examples.clock 0). vm_compute. reflexivity.
  - reflexivity.
  - exists a1. split; [exact Hh|exact Hr].
Defined.

(** X20: data from the socket never makes a request pending and never
    touches what was sent or the clock; it stores a response only under
    an id that was pending, which then is pending no more. *)
Theorem handleTCPResponse_only_answers_pending `{JSRuntime} data a :
  let a' := default a (Adapter.handleTCPResponse data a) in
  Adapter.pendingRequests a' ⊆ Adapter.pendingRequests a
  ∧ Adapter.sent a' = Adapter.sent a
  ∧ Adapter.ticks a' = Adapter.ticks a
  ∧ Adapter.connected a' = Adapter.connected a
  ∧ ∀ id, Adapter.tcpResponses a' !! id ≠ Adapter.tcpResponses a !! id →
      is_Some (Adapter.pendingRequests a !! id)
      ∧ Adapter.pendingRequests a' !! id = None
      ∧ is_Some (Adapter.tcpResponses a' !! id).
Proof.
  unfold Adapter.handleTCPResponse.
  destruct (Adapter.parseTCPMessage data) as [msg|?]; [|done].
  destruct (bool_decide _); [|done].
  unfold Adapter.handleStatusResponse.
  destruct (Adapter.requestId_of (payload msg)) as [[[| | |rid| |]|]|];
    try done.
  destruct (decide (is_Some (Adapter.pendingRequests a !! rid))) as [Hp|Hp].
  - rewrite bool_decide_true by done. cbn.
    split; [apply delete_subseteq|].
    split; [done|]. split; [done|]. split; [done|].
    intros id Hdiff. destruct (decide (rid = id)) as [->|Hne].
    + split; [done|].
      split; [by rewrite lookup_delete_eq|by rewrite lookup_insert_eq].
    + exfalso. apply Hdiff. by rewrite lookup_insert_ne.
  - by rewrite bool_decide_false by done.
Qed.

(** X21: the adapter discards every line exactly as the protocol object
    writes it.  broadcast and sendToClient write the message followed by
    a line feed; handed to handleTCPResponse as it is, the line fails the
    checksum comparison and the adapter is left unchanged, whatever the
    type and the payload, while the same status response without the line
    feed reaches handleStatusResponse. *)
Theorem adapter_discards_written_line `{JSRuntime} now t p p' a :
  t ∈ MESSAGE_TYPES →
  10 ^ 12 ≤ now < 10 ^ 13 →
  Z.of_nat (length (JSON_stringify p)) ≤ 9999 →
  JSON_parse (JSON_stringify p) = Some p' →
  Adapter.handleTCPResponse (createMessage now t p ++ [10%N]) a = Some a
  ∧ Adapter.handleTCPResponse (createMessage now STATUS_RESPONSE p) a
    = Adapter.handleStatusResponse
        {| type := STATUS_RESPONSE; timestamp := Some now; payload := p';
           raw := createMessage now STATUS_RESPONSE p |} a.
Proof.
  intros Ht Hnow Hn Hp. unfold Adapter.handleTCPResponse, Adapter.parseTCPMessage.
  rewrite parseMessage_rejects_written_line
    by (first [by apply MESSAGE_TYPES_length|done]).
  split; [done|].
  rewrite parseMessage_createMessage, Hp by done.
  by rewrite bool_decide_true.
Qed.

Lemma adapter_discards_written_line_witness :
  Adapter.handleTCPResponse (H := Examples.runtime)
    (createMessage (H := Examples.runtime) (Examples.clock 2) STATUS_RESPONSE
       (payload Samples.sample_response) ++ [10%N])
    Examples.overdue_adapter
  = Some Examples.overdue_adapter.
Proof.
  apply (adapter_discards_written_line (H := Examples.runtime)
           (Examples.clock 2) STATUS_RESPONSE
           (payload Samples.sample_response)
           (payload Samples.sample_response) Examples.overdue_adapter).
  - apply (bool_decide_unpack _). by vm_compute.
  - unfold Examples.clock. lia.
  - vm_compute. discriminate.
  - vm_compute. reflexivity.
Defined.

(** X22: the heartbeat of the adapter is not tracked as a request, and
    the protocol object, reading it in one piece, acknowledges it: it
    answers with ACK_MSG for HBT_CHK and emits the heartbeat as a message
    event. *)
Theorem sendHeartbeat_is_acknowledged `{JSRuntime} a a' client h :
  AdapterMore.sendHeartbeat a = Some a' →
  10 ^ 12 ≤ Date_now (S (Adapter.ticks a)) < 10 ^ 13 →
  Z.of_nat (length (JSON_stringify
    (JObj [(js "timestamp", JNum (Date_now (Adapter.ticks a)))]))) ≤ 9999 →
  10%N ∉ JSON_stringify
           (JObj [(js "timestamp", JNum (Date_now (Adapter.ticks a)))]) →
  JSON_parse (JSON_stringify
    (JObj [(js "timestamp", JNum (Date_now (Adapter.ticks a)))]))
  = Some (JObj [(js "timestamp", JNum (Date_now (Adapter.ticks a)))]) →
  ∃ message,
    Adapter.sent a' = Adapter.sent a ++ [message]
    ∧ Adapter.pendingRequests a' = Adapter.pendingRequests a
    ∧ Adapter.tcpResponses a' = Adapter.tcpResponses a
    ∧ handleClientData client message h =
        emit_message client
          {| type := HEARTBEAT;
             timestamp := Some (Date_now (S (Adapter.ticks a)));
             payload :=
               JObj [(js "timestamp", JNum (Date_now (Adapter.ticks a)))];
             raw := message |}
          (sendToClient client ACK
             (JObj [(js "originalType", JStr HEARTBEAT);
                    (js "timestamp", JNum (Date_now (ticks h)))])
             (tick h)).
Proof.
  intros Hsend Hnow Hn Hjson Hp.
  unfold AdapterMore.sendHeartbeat, Adapter.sendTCPMessage in Hsend.
  cbn [Adapter.connected Adapter.sent Adapter.pendingRequests
       Adapter.tcpResponses Adapter.ticks] in Hsend.
  destruct (Adapter.connected a); [|done]. injection Hsend as <-.
  eexists. split; [reflexivity|]. split; [done|]. split; [done|].
  unfold Adapter.createTCPMessage.
  set (p := JObj _) in *. set (now := Date_now (S _)) in *.
  assert (HEARTBEAT ∈ MESSAGE_TYPES) as Ht
    by (apply (bool_decide_unpack _); by vm_compute).
  destruct (createMessage_one_line now HEARTBEAT p Ht ltac:(lia) Hjson)
    as [Hnos Hnl].
  unfold handleClientData.
  rewrite (trim_no_outer_space _ Hnos), split_no_separator by done.
  cbn [foldl]. unfold handle_messageStr.
  rewrite parseMessage_createMessage, Hp by done.
  destruct Hnos as [(c & Hhead & _) _].
  by destruct (createMessage now HEARTBEAT p).
Qed.

Lemma sendHeartbeat_is_acknowledged_witness :
  ∃ message,
    Adapter.sent
      (default Examples.overdue_adapter
         (AdapterMore.sendHeartbeat (H := Examples.runtime)
            Examples.overdue_adapter))
    = Adapter.sent Examples.overdue_adapter ++ [message]
    ∧ handleClientData (H := Examples.runtime) 1 message Examples.one_client =
        emit_message 1
          {| type := HEARTBEAT;
             timestamp := Some (Examples.clock 101);
             payload := JObj [(js "timestamp", JNum (Examples.clock 100))];
             raw := message |}
          (sendToClient (H := Examples.runtime) 1 ACK
             (JObj [(js "originalType", JStr HEARTBEAT);
                    (js "timestamp", JNum (Examples.clock 0))])
             (tick Examples.one_client)).
Proof.
  destruct (sendHeartbeat_is_acknowledged (H := Examples.runtime)
              Examples.overdue_adapter
              (default Examples.overdue_adapter
                 (AdapterMore.sendHeartbeat (H := Examples.runtime)
                    Examples.overdue_adapter))
              1%nat Examples.one_client)
    as (message & Hsent & _ & _ & Hack).
  - vm_compute. reflexivity.
  - unfold Examples.clock. cbn [Adapter.ticks Examples.overdue_adapter].
    change (Date_now (S 100)) with (Examples.clock 101).
    unfold Examples.clock. lia.
  - vm_compute. discriminate.
  - apply (bool_decide_unpack _). by vm_compute.
  - vm_compute. reflexivity.
  - exists message. split; [exact Hsent|exact Hack].
Defined.

(** ** A client that goes away *)

Lemma length_filter_ne (client : nat) (l : list nat) :
  NoDup l →
  length (filter (λ c, c ≠ client) l) =
    if decide (client ∈ l) then (length l - 1)%nat else length l.
Proof.
  induction 1 as [|c l Hc Hnd IH]; [done|].
  rewrite filter_cons. destruct (decide (c ≠ client)) as [Hne|Heq].
  - cbn [length]. rewrite IH.
    destruct (decide (client ∈ l)) as [Hin|Hin].
    + rewrite decide_True by (by right).
      destruct l; [by apply elem_of_nil in Hin|]. cbn [length]. lia.
    + rewrite decide_False; [done|].
      intros [?|?]%elem_of_cons; [by apply Hne|done].
  - apply dec_stable in Heq. subst c.
    rewrite IH, (decide_False (P := client ∈ l)) by done.
    rewrite decide_True by (by left). cbn [length]. lia.
Qed.

(** X23: when a client closes or fails it leaves the set and nobody else
    does; the number of connected clients drops by one if it was in the
    set; and what is broadcast afterwards is not written to it. *)
Theorem on_close_forgets_client `{JSRuntime} client h :
  NoDup (clients h) →
  (client ∉ clients (Server.on_close client h))
  ∧ (∀ c, c ≠ client →
       (c ∈ clients (Server.on_close client h) ↔ c ∈ clients h))
  ∧ Server.connectedClients (Server.on_close client h) =
      (if decide (client ∈ clients h)
       then (Server.connectedClients h - 1)%nat
       else Server.connectedClients h)
  ∧ ∀ type payload,
      written (broadcast type payload (Server.on_close client h)) !!! client
      = written h !!! client.
Proof.
  intros Hnd. unfold Server.on_close, Server.connectedClients, delete_client.
  cbn [clients]. split; [|split; [|split]].
  - rewrite list_elem_of_filter. by intros [? _].
  - intros c Hne. rewrite list_elem_of_filter. split; [by intros [_ ?]|done].
  - by apply length_filter_ne.
  - intros type payload. unfold broadcast. cbn [tick clients ticks].
    rewrite foldl_try_write_written by (by apply NoDup_filter).
    rewrite decide_False; [done|].
    rewrite list_elem_of_filter. by intros [[? _] _].
Qed.

Lemma on_close_forgets_client_witness :
  NoDup (clients Samples.two_clients)
  ∧ Server.connectedClients (Server.on_close 1 Samples.two_clients) = 1%nat.
Proof.
  assert (NoDup (clients Samples.two_clients)) as Hnd.
  { apply (bool_decide_unpack _). by vm_compute. }
  split; [done|].
  exact (proj1 (proj2 (proj2
    (on_close_forgets_client (H := Examples.runtime) 1 Samples.two_clients
       Hnd)))).
Defined.

(** ** The remaining tests of the model and the handler, replayed *)

(** Test 6, Package Lifecycle Validation. *)
Example test_package_lifecycle_validation :
  let received := Examples.received_package in
  Queries.isReadyForPickup received = false
  ∧ Queries.isLoaded received = false
  ∧ match WMS.updateStatus (H := Examples.runtime) 3 (js "stored")
            (Some (js "A1")) None received with
    | inr stored =>
        Queries.isReadyForPickup stored = true
        ∧ Queries.isLoaded stored = false
        ∧ match WMS.updateStatus (H := Examples.runtime) 5 (js "picked")
                  None None stored with
          | inr picked =>
              match WMS.assignToVehicle (H := Examples.runtime) 7
                      (WMS.Str (js "VH001")) picked with
              | inr loaded => Queries.isLoaded loaded = true
              | inl _ => False
              end
          | inl _ => False
          end
    | inl _ => False
    end.
Proof. vm_compute. repeat split; reflexivity. Qed.

(** Test 10, Integration with Legacy Methods: fulfilling an order for a
    stored package picks it. *)
Example test_integration_with_legacy_methods :
  match Queries.handleOrderFulfillment (H := Examples.runtime)
          Examples.warehouse Samples.sample_order Samples.after_store with
  | Queries.Fulfilled r m =>
      Queries.ff_status r = js "fulfilled"
      ∧ Queries.ff_packageId r = Some Examples.PKG001
      ∧ match Queries.trackPackage Examples.warehouse Examples.PKG001 m with
        | WMS.Returned t _ =>
            Queries.si_status (Queries.tr_currentStatus t) = js "picked"
        | WMS.Thrown _ => False
        end
  | _ => False
  end.
Proof. vm_compute. repeat split; reflexivity. Qed.

(** Test 8, Statistics and Analytics. *)
Example test_statistics_and_analytics :
  let stats :=
    (Queries.getStatistics (H := Examples.runtime)
       Samples.after_statistics_run).1 in
  Queries.totalPackages stats = 3%nat
  ∧ Queries.statusBreakdown stats WMS.Received = Some 1%nat
  ∧ Queries.statusBreakdown stats WMS.Stored = Some 1%nat
  ∧ Queries.statusBreakdown stats WMS.Picked = None
  ∧ Queries.statusBreakdown stats WMS.Loaded = Some 1%nat
  ∧ length (Queries.getPackagesByStatus (js "stored")
              Samples.after_statistics_run) = 1%nat
  ∧ length (Queries.getAllPackages Samples.after_statistics_run) = 3%nat.
Proof. vm_compute. repeat split; reflexivity. Qed.

(** Storing and loading without a location or a vehicle: the texts of the
    events name null and undefined, and the broadcast payload of a package
    loaded without a vehicle has no assignedVehicle. *)
Example test_missing_location_and_vehicle :
  let served ops :=
    WMS.getPackage Examples.PKG001
      (WMS.serve_all (H := Examples.runtime) Examples.warehouse
         Examples.after_receive ops) in
  let last_text ops :=
    served ops ≫= λ pkg, WMS.description <$> last (WMS.events pkg) in
  last_text [WMS.Store Examples.PKG001 WMS.null]
    = Some (js "Package stored at null")
  ∧ last_text [WMS.Store Examples.PKG001 WMS.undefined]
    = Some (js "Package stored at undefined")
  ∧ last_text [WMS.Load Examples.PKG001 WMS.null]
    = Some (js "Package loaded onto vehicle null")
  ∧ last_text [WMS.Load Examples.PKG001 WMS.undefined]
    = Some (js "Package loaded onto vehicle undefined")
  ∧ (λ pkg, Server.update_payload pkg 0)
      <$> served [WMS.Load Examples.PKG001 WMS.undefined]
    = Some (JObj [(js "packageId", JStr Examples.PKG001);
                  (js "status", JStr (js "loaded"));
                  (js "location", JNull);
                  (js "timestamp", JNum 0)]).
Proof. vm_compute. repeat split; reflexivity. Qed.
